(** * The task-execution engine of the browser agent

    A shallow embedding of the context manager ([src/context/manager.py]),
    the security layer ([src/agents/security.py]) and the orchestrator
    ([src/agents/orchestrator.py]), and the properties of the engine proved
    on it; with them the token estimate of [src/ai/llm_client.py], the
    selector conversion of [src/agents/browser_agent.py] and the summary of
    page elements of [src/context/compression.py].

    Conventions of the embedding.
    - Python [int] is [Z]; [str] is [string], one [ascii] per character,
      the Cyrillic literals of the source being kept as their UTF-8 bytes;
      none of the properties below depends on the length of such a literal.
    - [str.lower()] lower-cases the ASCII letters and rewrites the other
      cased characters as the Unicode tables of the interpreter say.  The
      tables are not part of the repository: what the interpreter returns
      is an oracle of the world ([unicode_lower]), and the model
      lower-cases the ASCII letters of that ([py_str_lower]), which leaves
      the interpreter's own answer as it is and lets the one fact the
      properties use, that the result holds no ASCII capital, be true of
      every world.
    - A message is a Python [dict] object.  The objects live in a store
      ([heap], a list indexed by address) and the deque, the lists handed to
      [_compress_messages] and the lists returned by [get_messages] hold
      addresses, so that the in-place assignment [msg["content"] = ...] is
      visible through every alias, as it is in Python.
    - An exception is an instance of [Exception], given by its type name
      and the text [str(e)]; interrupts, which [except Exception] lets
      through, are not part of the model.  A computation that may raise
      returns a [Result], and the methods of the orchestrator are
      computations over its state that keep what was done before the
      exception.
    - The coroutines run one after the other on a single thread, so
      [await] is an ordinary call.
    - Of the logging only the calls of [logger.warning] made from the
      orchestrator module are kept, as a list of the texts passed; the task
      identifier, which only feeds the logger, is left out. *)

From Stdlib Require Import ZArith String Ascii Bool Lia.
From stdpp Require Import base list strings gmap pretty.

Local Open Scope Z_scope.

(** ** Python values and exceptions *)

Record exn := PyExc { exc_type : string; exc_str : string }.

Inductive Result (A : Type) : Type :=
| Ok (a : A)
| Raise (e : exn).
Arguments Ok {A} a.
Arguments Raise {A} e.

(** The JSON values that reach the engine as tool arguments or tool results.
    [VOther] stands for a value of any other type (float, list, object), of
    which the code under study only ever observes the type name. *)
Inductive value :=
| VNone
| VBool (b : bool)
| VInt (z : Z)
| VStr (s : string)
| VOther (type_name : string).

Definition type_name_of (v : value) : string :=
  match v with
  | VNone => "NoneType"
  | VBool _ => "bool"
  | VInt _ => "int"
  | VStr _ => "str"
  | VOther t => t
  end.

(** A result dictionary keeps its insertion order. *)
Definition Dict := list (string * value).

(** ** Strings *)

(** [s.startswith(p)] *)
Definition startswith (s p : string) : bool := String.prefix p s.

(** [len(s)] as a Python integer *)
Definition len (s : string) : Z := Z.of_nat (String.length s).

(** [s[:n]] for a non-negative literal [n] *)
Definition str_take (n : nat) (s : string) : string := String.substring 0 n s.

(** [p in s] on strings *)
Fixpoint str_contains (s p : string) : bool :=
  String.prefix p s ||
  match s with
  | EmptyString => false
  | String _ s' => str_contains s' p
  end.

Definition lower_ascii (c : ascii) : ascii :=
  let n := N_of_ascii c in
  if ((65 <=? n) && (n <=? 90))%N then ascii_of_N (n + 32) else c.

(** What [s.lower()] does to the ASCII letters.  What it does to the
    other characters is [unicode_lower] below, and [s.lower()] itself is
    [py_str_lower]. *)
Fixpoint ascii_lower (s : string) : string :=
  match s with
  | EmptyString => EmptyString
  | String c s' => String (lower_ascii c) (ascii_lower s')
  end.

(** [l[start:]] for a Python list: a negative [start] counts from the end
    and is clamped at the beginning of the list. *)
Definition slice_from {A} (start : Z) (l : list A) : list A :=
  if start <? 0
  then drop (Z.to_nat (Z.max 0 (Z.of_nat (length l) + start))) l
  else drop (Z.to_nat start) l.

(** ** Messages and the store of message objects *)

Record Message := mkMessage { role : string; content : string }.

Global Instance Message_inhabited : Inhabited Message :=
  populate (mkMessage "" "").

Definition ref := nat.

(** [collections.deque(maxlen=...)] holding message objects *)
Record deque := mkDeque { maxlen : Z; items : list ref }.

(** [deque.append]: when the deque is full the oldest entry is dropped. *)
Definition deque_append (d : deque) (x : ref) : deque :=
  let l := items d ++ [x] in
  mkDeque (maxlen d) (drop (length l - Z.to_nat (maxlen d))%nat l).

Definition deque_clear (d : deque) : deque := mkDeque (maxlen d) [].

(** ** ContextManager *)

Record ContextManager := mkContextManager {
  max_tokens : Z;
  sliding_window_size : Z;
  heap : list Message;
  message_history : deque;
  system_message : ref
}.

Definition set_heap (cm : ContextManager) (h : list Message) : ContextManager :=
  mkContextManager (max_tokens cm) (sliding_window_size cm) h
    (message_history cm) (system_message cm).

(** Allocation of a fresh dictionary object. *)
Definition alloc (h : list Message) (m : Message) : list Message * ref :=
  (h ++ [m], length h).

(** [ContextManager.__init__]; [deque] rejects a negative [maxlen]. *)
Definition ContextManager_init (max_tok window : Z) : Result ContextManager :=
  if window * 2 <? 0
  then Raise (PyExc "ValueError" "maxlen must be non-negative")
  else Ok (mkContextManager max_tok window [mkMessage "system" ""]
             (mkDeque (window * 2) []) 0%nat).

Definition set_system_message (c : string) (cm : ContextManager) : ContextManager :=
  let '(h, r) := alloc (heap cm) (mkMessage "system" c) in
  mkContextManager (max_tokens cm) (sliding_window_size cm) h
    (message_history cm) r.

Definition append_message (m : Message) (cm : ContextManager) : ContextManager :=
  let '(h, r) := alloc (heap cm) m in
  mkContextManager (max_tokens cm) (sliding_window_size cm) h
    (deque_append (message_history cm) r) (system_message cm).

Definition add_user_message (c : string) : ContextManager -> ContextManager :=
  append_message (mkMessage "user" c).

Definition add_assistant_message (c : string) : ContextManager -> ContextManager :=
  append_message (mkMessage "assistant" c).

Definition tool_result_content (tool_name res : string) : string :=
  "TOOL RESULT [" +:+ tool_name +:+ "]: " +:+ res.

Definition add_tool_result (tool_name res : string) : ContextManager -> ContextManager :=
  append_message (mkMessage "user" (tool_result_content tool_name res)).

Definition clear_history (cm : ContextManager) : ContextManager :=
  mkContextManager (max_tokens cm) (sliding_window_size cm) (heap cm)
    (deque_clear (message_history cm)) (system_message cm).

Definition is_system (m : Message) : bool := String.eqb (role m) "system".

Definition truncated (c : string) : string :=
  str_take 4500 c +:+ "... [truncated]".

(** The test guarding the assignment in the last loop of
    [_compress_messages]. *)
Definition truncatable (m : Message) : bool :=
  negb (is_system m) && negb (startswith (content m) "TOOL RESULT")
  && (len (content m) >? 5000).

Section Context.

(** [LLMClient.count_tokens]: the tokenizer, with its length-based
    fallback, is a function of the text. *)
Variable count_tokens : string -> Z.

Definition _count_messages_tokens (h : list Message) (messages : list ref) : Z :=
  foldl (fun total msg => total + count_tokens (content (h !!! msg))) 0 messages.

(** First loop of [_compress_messages]: the pair is
    [(system_msg, other_msgs)]. *)
Definition split_step (h : list Message) (acc : option ref * list ref)
    (msg : ref) : option ref * list ref :=
  if is_system (h !!! msg) then (Some msg, snd acc)
  else (fst acc, snd acc ++ [msg]).

Definition split_messages (h : list Message) (messages : list ref)
  : option ref * list ref :=
  foldl (split_step h) (None, []) messages.

(** Body of the last loop of [_compress_messages]. *)
Definition truncate_step (h : list Message) (msg : ref) : list Message :=
  let m := h !!! msg in
  if negb (is_system m) then
    if negb (startswith (content m) "TOOL RESULT") then
      if len (content m) >? 5000 then
        <[msg := mkMessage (role m) (truncated (content m))]> h
      else h
    else h
  else h.

Definition _compress_messages (cm : ContextManager) (messages : list ref)
  : list ref * ContextManager :=
  let '(system_msg, other_msgs) := split_messages (heap cm) messages in
  let recent_msgs := slice_from (- sliding_window_size cm) other_msgs in
  let compressed :=
    match system_msg with Some s => [s] | None => [] end ++ recent_msgs in
  let total_tokens := _count_messages_tokens (heap cm) compressed in
  if total_tokens >? max_tokens cm
  then (compressed, set_heap cm (foldl truncate_step (heap cm) compressed))
  else (compressed, cm).

Definition get_messages (include_system : bool) (cm : ContextManager)
  : list ref * ContextManager :=
  let messages :=
    (if include_system
        && negb (String.eqb (content (heap cm !!! system_message cm)) "")
     then [system_message cm] else [])
    ++ items (message_history cm) in
  let total_tokens := _count_messages_tokens (heap cm) messages in
  if total_tokens >? max_tokens cm
  then _compress_messages cm messages
  else (messages, cm).

(** The texts a reader of the returned list sees. *)
Definition view (cm : ContextManager) (messages : list ref) : list Message :=
  (fun r => heap cm !!! r) <$> messages.

(** The manager after [n] successive calls of [get_messages()]. *)
Fixpoint after_get_messages (n : nat) (cm : ContextManager) : ContextManager :=
  match n with
  | O => cm
  | S n' => after_get_messages n' (snd (get_messages true cm))
  end.

End Context.

(** ** SecurityAgent *)

Abbreviation Args := (gmap string value).

(** [args.get(key, default)] *)
Definition args_get (args : Args) (key : string) (d : value) : value :=
  default d (args !! key).

(** [args[key]]: a missing key raises [KeyError], whose text is the
    [repr] of the key. *)
Definition args_subscript (args : Args) (key : string) : Result value :=
  match args !! key with
  | Some v => Ok v
  | None => Raise (PyExc "KeyError" ("'" +:+ key +:+ "'"))
  end.

(** [v.lower()]: only strings have the method; [lower] is [str.lower]. *)
Definition py_lower (lower : string -> string) (v : value) : Result string :=
  match v with
  | VStr s => Ok (lower s)
  | _ => Raise (PyExc "AttributeError"
                  ("'" +:+ type_name_of v +:+ "' object has no attribute 'lower'"))
  end.

Record SecurityVerdict := mkVerdict {
  safe : bool;
  reason : string;
  requires_confirmation : bool
}.

(** The confirmation callback is an exchange with the operator: it is
    indexed by the moment of the call and may fail. *)
Definition Callback := nat -> string -> Args -> string -> Result bool.

Record SecurityAgent := mkSecurityAgent {
  enabled : bool;
  destructive_patterns : list string;
  user_confirmation_callback : option Callback
}.

Definition payment_keywords : list string := ["card"; "payment"; "cvv"; "credit"].

Definition _is_destructive_action (lower : string -> string)
    (sa : SecurityAgent) (action_name : string) (parameters : Args)
  : Result (bool * string) :=
  let type_text_check :=
    if String.eqb action_name "type_text" then
      match py_lower lower (args_get parameters "text" (VStr "")) with
      | Raise e => Raise e
      | Ok _ =>
        match py_lower lower (args_get parameters "selector" (VStr "")) with
        | Raise e => Raise e
        | Ok selector =>
          if existsb (fun keyword => str_contains selector keyword) payment_keywords
          then Ok (true, "Попытка ввода платежных данных")
          else Ok (false, "")
        end
      end
    else Ok (false, "") in
  if String.eqb action_name "click" then
    match py_lower lower (args_get parameters "selector" (VStr "")) with
    | Raise e => Raise e
    | Ok selector =>
      match py_lower lower (args_get parameters "reason" (VStr "")) with
      | Raise e => Raise e
      | Ok reason_text =>
        match List.find (fun pattern => str_contains selector pattern
                                        || str_contains reason_text pattern)
                        (destructive_patterns sa) with
        | Some pattern =>
            Ok (true, "Обнаружен деструктивный паттерн: '" +:+ pattern +:+ "'")
        | None => type_text_check
        end
      end
    end
  else type_text_check.

(** ** Orchestrator *)

Record TaskResult := mkTaskResult {
  success : value;
  result : value;
  steps_taken : Z;
  error : option string
}.

Record ToolCall := mkToolCall { function_name : string; function_arguments : Args }.

Record Response := mkResponse {
  response_content : option string;
  tool_calls : list ToolCall
}.

(** Everything outside the engine: the tokenizer, the JSON encoder, the
    prompt templates ([src/ai/prompt_templates.py] is not part of the
    sources at hand), the page, the language model, the browser and the
    [str.lower] of the interpreter.  Calls
    whose answer depends on the outside world are indexed by the number of
    such calls made before them, so a world is an arbitrary script of
    answers and failures. *)
Record World := mkWorld {
  PageInfo : Type;
  count_tokens : string -> Z;
  json_dumps : Dict -> string;
  system_prompt : string;
  user_prompt_template : string -> string;
  planning_prompt : string -> PageInfo -> string;
  error_recovery_prompt : string -> string -> Result string;
  get_page_info : nat -> Result PageInfo;
  extract_essential_info : PageInfo -> PageInfo;
  chat_completion : nat -> list Message -> Result Response;
  browser_agent : nat -> string -> list value -> Result Dict;
  unicode_lower : string -> string
}.

(** [s.lower()] in the world [W]. *)
Definition py_str_lower (W : World) (s : string) : string :=
  ascii_lower (unicode_lower W s).

(** The fields of [OrchestratorAgent], followed by the record of what the
    engine did to the outside: the number of external calls made, the
    browser actions requested, the message lists sent to the model and the
    texts passed to [logger.warning] in the orchestrator module. *)
Record Orchestrator := mkOrchestrator {
  context_manager : ContextManager;
  security_agent : SecurityAgent;
  max_steps : Z;
  current_step : Z;
  task_completed : bool;
  task_result : option TaskResult;
  clock : nat;
  browser_calls : list (string * list value);
  llm_inputs : list (list Message);
  warnings : list string
}.

Definition set_context_manager (f : ContextManager -> ContextManager)
    (o : Orchestrator) : Orchestrator :=
  mkOrchestrator (f (context_manager o)) (security_agent o) (max_steps o)
    (current_step o) (task_completed o) (task_result o) (clock o)
    (browser_calls o) (llm_inputs o) (warnings o).

Definition set_current_step (n : Z) (o : Orchestrator) : Orchestrator :=
  mkOrchestrator (context_manager o) (security_agent o) (max_steps o)
    n (task_completed o) (task_result o) (clock o)
    (browser_calls o) (llm_inputs o) (warnings o).

Definition set_task (c : bool) (r : option TaskResult)
    (o : Orchestrator) : Orchestrator :=
  mkOrchestrator (context_manager o) (security_agent o) (max_steps o)
    (current_step o) c r (clock o)
    (browser_calls o) (llm_inputs o) (warnings o).

Definition set_clock (n : nat) (o : Orchestrator) : Orchestrator :=
  mkOrchestrator (context_manager o) (security_agent o) (max_steps o)
    (current_step o) (task_completed o) (task_result o) n
    (browser_calls o) (llm_inputs o) (warnings o).

Definition log_browser_call (c : string * list value)
    (o : Orchestrator) : Orchestrator :=
  mkOrchestrator (context_manager o) (security_agent o) (max_steps o)
    (current_step o) (task_completed o) (task_result o) (clock o)
    (browser_calls o ++ [c]) (llm_inputs o) (warnings o).

Definition log_llm_input (ms : list Message)
    (o : Orchestrator) : Orchestrator :=
  mkOrchestrator (context_manager o) (security_agent o) (max_steps o)
    (current_step o) (task_completed o) (task_result o) (clock o)
    (browser_calls o) (llm_inputs o ++ [ms]) (warnings o).

Definition log_warning (w : string) (o : Orchestrator) : Orchestrator :=
  mkOrchestrator (context_manager o) (security_agent o) (max_steps o)
    (current_step o) (task_completed o) (task_result o) (clock o)
    (browser_calls o) (llm_inputs o) (warnings o ++ [w]).

(** [OrchestratorAgent.__init__] with the components already built. *)
Definition Orchestrator_init (cm : ContextManager) (sa : SecurityAgent)
    (budget : Z) : Orchestrator :=
  mkOrchestrator cm sa budget 0 false None 0%nat [] [] [].

(** *** Computations that change the orchestrator and may raise *)

Definition M (A : Type) : Type := Orchestrator -> Result A * Orchestrator.

Definition ret {A} (a : A) : M A := fun o => (Ok a, o).

Definition bind {A B} (m : M A) (k : A -> M B) : M B :=
  fun o => match m o with
           | (Ok a, o') => k a o'
           | (Raise e, o') => (Raise e, o')
           end.

Definition raise {A} (e : exn) : M A := fun o => (Raise e, o).

(** [try: body  except Exception as e: handler(e)]; what the body did to
    the state before raising stays done. *)
Definition try_except {A} (body : M A) (handler : exn -> M A) : M A :=
  fun o => match body o with
           | (Ok a, o') => (Ok a, o')
           | (Raise e, o') => handler e o'
           end.

Definition lift {A} (r : Result A) : M A := fun o => (r, o).
Definition gets {A} (f : Orchestrator -> A) : M A := fun o => (Ok (f o), o).
Definition modify (f : Orchestrator -> Orchestrator) : M unit :=
  fun o => (Ok tt, f o).

Declare Scope M_scope.
Delimit Scope M_scope with M.
Notation "x <- m ;; k" := (bind m (fun x => k))
  (at level 100, m at next level, right associativity) : M_scope.
Notation "m ;;; k" := (bind m (fun _ => k))
  (at level 100, right associativity) : M_scope.

(** [for x in l: f(x)] *)
Fixpoint for_each {A} (l : list A) (f : A -> M unit) : M unit :=
  match l with
  | [] => ret tt
  | x :: l' => bind (f x) (fun _ => for_each l' f)
  end.

(** An external call takes the current instant and advances the clock. *)
Definition tick : M nat :=
  fun o => (Ok (clock o), set_clock (S (clock o)) o).

(** [logger.security_alert(action)] hands this text to [logger.warning]. *)
Definition security_alert_text (action : string) : string :=
  "[!] SECURITY: " +:+ action +:+ " (requires confirmation)".

Section Engine.

Variable W : World.

Local Open Scope M_scope.

(** [SecurityAgent.check_action] *)
Definition check_action (action_name : string) (parameters : Args)
  : M SecurityVerdict :=
  sa <- gets security_agent ;;
  if negb (enabled sa) then
    ret (mkVerdict true "Security layer отключен" false)
  else
    d <- lift (_is_destructive_action (py_str_lower W) sa action_name
                 parameters) ;;
    let '(is_destructive, why) := d in
    if is_destructive then
      match user_confirmation_callback sa with
      | Some callback =>
          t <- tick ;;
          confirmed <- lift (callback t action_name parameters why) ;;
          if confirmed
          then ret (mkVerdict true "Подтверждено пользователем" false)
          else ret (mkVerdict false "Отклонено пользователем" false)
      | None => ret (mkVerdict false why true)
      end
    else ret (mkVerdict true "Действие безопасно" false).

(** A method of [BrowserAgent] applied to already evaluated arguments. *)
Definition call_browser (method : string) (args : list value) : M Dict :=
  t <- tick ;;
  modify (log_browser_call (method, args)) ;;;
  lift (browser_agent W t method args).

Definition _call_tool (tool_name : string) (args : Args) : M Dict :=
  try_except
    (if String.eqb tool_name "click" then
       selector <- lift (args_subscript args "selector") ;;
       call_browser "click" [selector; args_get args "reason" (VStr "")]
     else if String.eqb tool_name "type_text" then
       selector <- lift (args_subscript args "selector") ;;
       text <- lift (args_subscript args "text") ;;
       call_browser "type_text" [selector; text; args_get args "reason" (VStr "")]
     else if String.eqb tool_name "navigate" then
       url <- lift (args_subscript args "url") ;;
       call_browser "navigate" [url; args_get args "reason" (VStr "")]
     else if String.eqb tool_name "scroll" then
       direction <- lift (args_subscript args "direction") ;;
       call_browser "scroll" [direction; args_get args "amount" (VStr "medium")]
     else if String.eqb tool_name "go_back" then
       call_browser "go_back" []
     else if String.eqb tool_name "extract_text" then
       selector <- lift (args_subscript args "selector") ;;
       call_browser "extract_text" [selector]
     else if String.eqb tool_name "wait" then
       seconds <- lift (args_subscript args "seconds") ;;
       call_browser "wait" [seconds; args_get args "reason" (VStr "")]
     else if String.eqb tool_name "press_key" then
       key <- lift (args_subscript args "key") ;;
       call_browser "press_key" [key; args_get args "reason" (VStr "")]
     else if String.eqb tool_name "task_complete" then
       step <- gets current_step ;;
       modify (set_task true
                 (Some (mkTaskResult (args_get args "success" (VBool true))
                                     (args_get args "result" (VStr ""))
                                     step None))) ;;;
       ret [("success", VBool true); ("message", VStr "Задача завершена")]
     else if String.eqb tool_name "ask_user" then
       let question := args_get args "question" (VStr "") in
       ret [("success", VBool false);
            ("message", VStr "Требуется ответ пользователя");
            ("question", question);
            ("user_input_required", VBool true)]
     else
       ret [("success", VBool false);
            ("error", VStr ("Неизвестный инструмент: " +:+ tool_name))])
    (fun e => ret [("success", VBool false); ("error", VStr (exc_str e))]).

Definition record_tool_result (tool_name : string) (res : Dict) : M unit :=
  modify (set_context_manager (add_tool_result tool_name (json_dumps W res))).

Definition _execute_tool_call (tool_call : ToolCall) : M unit :=
  let tool_name := function_name tool_call in
  let tool_args := function_arguments tool_call in
  let run_tool :=
    res <- _call_tool tool_name tool_args ;;
    record_tool_result tool_name res in
  sa <- gets security_agent ;;
  if enabled sa then
    security_check <- check_action tool_name tool_args ;;
    if negb (safe security_check) then
      if requires_confirmation security_check then
        let error_msg :=
          "Действие требует подтверждения: " +:+ reason security_check in
        modify (log_warning (security_alert_text error_msg)) ;;;
        record_tool_result tool_name
          [("success", VBool false); ("error", VStr error_msg);
           ("requires_user_confirmation", VBool true)]
      else
        record_tool_result tool_name
          [("success", VBool false); ("error", VStr (reason security_check))]
    else run_tool
  else run_tool.

Definition _process_llm_response (response : Response) : M unit :=
  match response_content response with
  | Some c =>
      if String.eqb c "" then ret tt
      else modify (set_context_manager (add_assistant_message c))
  | None => ret tt
  end ;;;
  match tool_calls response with
  | [] => modify (log_warning "LLM не вызвал никаких инструментов")
  | calls => for_each calls _execute_tool_call
  end.

Definition _attempt_recovery (err : string) : M bool :=
  modify (log_warning ("Попытка восстановления после ошибки: " +:+ err)) ;;;
  try_except
    (step <- gets current_step ;;
     recovery_prompt <-
       lift (error_recovery_prompt W err ("Шаг " +:+ pretty step)) ;;
     modify (set_context_manager (add_user_message recovery_prompt)) ;;;
     ret true)
    (fun _ => ret false).

(** [self.context_manager.get_messages()] *)
Definition get_messages_M : M (list ref) :=
  fun o =>
    let '(messages, cm) := get_messages (count_tokens W) true (context_manager o) in
    (Ok messages, set_context_manager (fun _ => cm) o).

(** The [try] block of the main loop. *)
Definition plan_and_act (task : string) : M unit :=
  t <- tick ;;
  page_info <- lift (get_page_info W t) ;;
  let compressed_page_info := extract_essential_info W page_info in
  modify (set_context_manager
            (add_user_message (planning_prompt W task compressed_page_info))) ;;;
  messages <- get_messages_M ;;
  seen <- gets (fun o => view (context_manager o) messages) ;;
  modify (log_llm_input seen) ;;;
  t' <- tick ;;
  response <- lift (chat_completion W t' seen) ;;
  _process_llm_response response.

(** One pass through the body of the [while] loop; [Some r] is
    [return r]. *)
Definition loop_body (task : string) : M (option TaskResult) :=
  step <- gets current_step ;;
  modify (set_current_step (step + 1)) ;;;
  try_except
    (plan_and_act task ;;; ret None)
    (fun e =>
       recovery_result <- _attempt_recovery (exc_str e) ;;
       if negb recovery_result then
         step' <- gets current_step ;;
         ret (Some (mkTaskResult (VBool false) (VStr "") step'
                                 (Some (exc_str e))))
       else ret None).

(** The [while] loop.  [fuel] bounds the number of passes; [None] means
    the bound was reached with the loop condition still true. *)
Fixpoint main_loop (fuel : nat) (task : string) (o : Orchestrator)
  : option (Result (option TaskResult) * Orchestrator) :=
  if negb (task_completed o) && (current_step o <? max_steps o) then
    match fuel with
    | O => None
    | S fuel' =>
        match loop_body task o with
        | (Ok None, o') => main_loop fuel' task o'
        | (r, o') => Some (r, o')
        end
    end
  else Some (Ok None, o).

(** The statements after the loop. *)
Definition conclude : M TaskResult :=
  o <- gets (fun o => o) ;;
  match task_completed o, task_result o with
  | true, Some r => ret r
  | _, _ =>
    if current_step o >=? max_steps o then
      modify (log_warning ("Достигнут лимит шагов: " +:+ pretty (max_steps o))) ;;;
      ret (mkTaskResult (VBool false) (VStr "") (current_step o)
                        (Some "Превышен лимит шагов"))
    else
      ret (mkTaskResult (VBool false) (VStr "") (current_step o)
                        (Some "Неизвестная ошибка"))
  end.

(** The statements before the loop. *)
Definition begin_task (task : string) (o : Orchestrator) : Orchestrator :=
  let o1 := set_current_step 0 (set_task false None o) in
  let o2 := set_context_manager (set_system_message (system_prompt W)) o1 in
  set_context_manager (add_user_message (user_prompt_template W task)) o2.

Definition execute_task (task : string) (o : Orchestrator)
  : option (Result TaskResult * Orchestrator) :=
  let o0 := begin_task task o in
  match main_loop (Z.to_nat (max_steps o0)) task o0 with
  | None => None
  | Some (Ok (Some r), o') => Some (Ok r, o')
  | Some (Ok None, o') => Some (conclude o')
  | Some (Raise e, o') => Some (Raise e, o')
  end.

End Engine.

(** * Vocabulary of the properties *)

(** What the first loop of [_compress_messages] keeps true of its pair. *)
Definition well_split (h : list Message) (acc : option ref * list ref) : Prop :=
  (forall s, fst acc = Some s -> is_system (h !!! s) = true)
  /\ Forall (fun r => is_system (h !!! r) = false) (snd acc).

(** The list returned by [_compress_messages]: the system message, when
    there is one, followed by the last [w] other messages. *)
Definition window (h : list Message) (w : Z) (messages : list ref) : list ref :=
  match fst (split_messages h messages) with Some s => [s] | None => [] end
  ++ slice_from (- w) (snd (split_messages h messages)).

(** [m] keeps [P] true, whether it returns or raises. *)
Definition preserves {A} (P : Orchestrator -> Prop) (m : M A) : Prop :=
  forall o, P o -> P (snd (m o)).

(** [m] always returns a value. *)
Definition never_raises {A} (m : M A) : Prop :=
  forall o, exists a o', m o = (Ok a, o').

(** A recorded result exists whenever the completion flag is set. *)
Definition completed_has_result (o : Orchestrator) : Prop :=
  task_completed o = true -> task_result o <> None.

(** A recorded result reports a step count within the budget. *)
Definition result_in_budget (o : Orchestrator) : Prop :=
  forall r, task_result o = Some r -> 0 <= steps_taken r <= max_steps o.

(** A property of the orchestrator that no statement of the loop body can
    break: it ignores the conversation, the clock and the logs, and it
    survives the recording of a result stamped with the current step. *)
Record engine_invariant (P : Orchestrator -> Prop) : Prop := {
  inv_context : forall f o, P o -> P (set_context_manager f o);
  inv_clock : forall n o, P o -> P (set_clock n o);
  inv_browser : forall x o, P o -> P (log_browser_call x o);
  inv_llm : forall x o, P o -> P (log_llm_input x o);
  inv_warning : forall x o, P o -> P (log_warning x o);
  inv_complete : forall s r o,
    P o -> P (set_task true (Some (mkTaskResult s r (current_step o) None)) o)
}.

(** The step counter and the budget. *)
Definition counters (c mx : Z) (o : Orchestrator) : Prop :=
  current_step o = c /\ max_steps o = mx.

Definition progress_inv (c mx : Z) (o : Orchestrator) : Prop :=
  counters c mx o /\ completed_has_result o.

Definition budget_inv (c mx : Z) (o : Orchestrator) : Prop :=
  counters c mx o /\ result_in_budget o.

(** What a failure returned from inside the loop looks like. *)
Definition failed_recovery (W : World) (tr : TaskResult) : Prop :=
  success tr = VBool false /\ result tr = VStr ""
  /\ exists msg p x, error tr = Some msg
       /\ error_recovery_prompt W msg p = Raise x.

(** ** The action surface *)

(** The names and the [required] lists of [BROWSER_TOOLS]
    ([src/ai/tools.py]). *)
Definition BROWSER_TOOLS : list (string * list string) :=
  [("click", ["selector"; "reason"]);
   ("type_text", ["selector"; "text"; "reason"]);
   ("navigate", ["url"; "reason"]);
   ("scroll", ["direction"; "amount"]);
   ("go_back", []);
   ("extract_text", ["selector"]);
   ("wait", ["seconds"; "reason"]);
   ("press_key", ["key"; "reason"]);
   ("task_complete", ["result"; "success"]);
   ("ask_user", ["question"])].

(** [d.get(key)] on a result dictionary *)
Definition dict_get (d : Dict) (key : string) : option value :=
  snd <$> List.find (fun kv => String.eqb (fst kv) key) d.

(** The arguments [_call_tool] reads with [args[...]], in the order it
    reads them. *)
Definition subscripted (tool_name : string) : list string :=
  if String.eqb tool_name "click" then ["selector"]
  else if String.eqb tool_name "type_text" then ["selector"; "text"]
  else if String.eqb tool_name "navigate" then ["url"]
  else if String.eqb tool_name "scroll" then ["direction"]
  else if String.eqb tool_name "extract_text" then ["selector"]
  else if String.eqb tool_name "wait" then ["seconds"]
  else if String.eqb tool_name "press_key" then ["key"]
  else [].

Definition first_missing (tool_name : string) (args : Args) : option string :=
  List.find (fun key => negb (bool_decide (is_Some (args !! key))))
            (subscripted tool_name).

(** The security gate lets the request through and leaves the state as it
    was. *)
Definition gate_passes (W : World) (o : Orchestrator) (tool_name : string)
    (args : Args) : Prop :=
  enabled (security_agent o) = false
  \/ exists v, check_action W tool_name args o = (Ok v, o) /\ safe v = true.

Definition failure (msg : string) : Dict :=
  [("success", VBool false); ("error", VStr msg)].

(** ** Concrete worlds *)

(** The length-based estimate [count_tokens] falls back to. *)
Definition length_estimate (s : string) : Z := len s `div` 4.

Fixpoint str_repeat (n : nat) (c : ascii) : string :=
  match n with
  | O => EmptyString
  | S n' => String c (str_repeat n' c)
  end.

Definition long_text : string := str_repeat (Z.to_nat 6000) "a".

(** The texts of the concrete worlds are ASCII, which [lower()] rewrites
    as [ascii_lower] does: their [unicode_lower] changes nothing. *)
Definition script_world
    (page : nat -> Result unit)
    (recover : string -> string -> Result string)
    (llm : nat -> list Message -> Result Response) : World :=
  mkWorld unit length_estimate (fun _ => "{}") "SYSTEM"
    (fun task => "TASK: " +:+ task) (fun task _ => "PLAN: " +:+ task)
    recover page (fun info => info) llm
    (fun _ _ _ => Ok [("success", VBool true)]) (fun s => s).

(** The model never calls a tool. *)
Definition idle_world : World :=
  script_world (fun _ => Ok tt) (fun err _ => Ok ("RECOVER: " +:+ err))
    (fun _ _ => Ok (mkResponse None [])).


Definition small_manager : ContextManager :=
  mkContextManager 100 5 [mkMessage "system" ""] (mkDeque 10 []) 0%nat.

Definition guarded : SecurityAgent := mkSecurityAgent true ["delete"] None.

Definition fresh_orchestrator (budget : Z) : Orchestrator :=
  Orchestrator_init small_manager guarded budget.

(** A manager whose history holds one long user message and one long tool
    result, far over the token budget. *)
Definition crowded_manager : ContextManager :=
  add_tool_result "extract_text" long_text
    (add_user_message long_text small_manager).

Definition click_delete : ToolCall :=
  mkToolCall "click"
    (list_to_map [("selector", VStr "#Delete-account"); ("reason", VStr "cleanup")]).

(** The orchestrator as a call of [execute_task] leaves it. *)
Definition final_state (x : option (Result TaskResult * Orchestrator))
    (d : Orchestrator) : Orchestrator :=
  match x with
  | Some (_, o) => o
  | None => d
  end.

(** ** Further vocabulary: the context manager *)

(** The public methods of [ContextManager] as requests. *)
Inductive ContextOp :=
| SetSystem (c : string)
| AddUser (c : string)
| AddAssistant (c : string)
| AddToolResult (tool_name res : string)
| ClearHistory
| GetMessages.

Definition apply_op (count_tokens : string -> Z) (cm : ContextManager)
    (op : ContextOp) : ContextManager :=
  match op with
  | SetSystem c => set_system_message c cm
  | AddUser c => add_user_message c cm
  | AddAssistant c => add_assistant_message c cm
  | AddToolResult tool_name res => add_tool_result tool_name res cm
  | ClearHistory => clear_history cm
  | GetMessages => snd (get_messages count_tokens true cm)
  end.

Definition run_ops (count_tokens : string -> Z) (ops : list ContextOp)
    (cm : ContextManager) : ContextManager :=
  foldl (apply_op count_tokens) cm ops.

(** Every address held by the manager is that of a stored object, the
    system slot holds a system message, the deque holds none, and the deque
    is within its bound. *)
Definition wf_manager (cm : ContextManager) : Prop :=
  Z.of_nat (length (items (message_history cm))) <= maxlen (message_history cm)
  /\ (system_message cm < length (heap cm))%nat
  /\ is_system (heap cm !!! system_message cm) = true
  /\ Forall (fun r => (r < length (heap cm))%nat
                      /\ is_system (heap cm !!! r) = false)
            (items (message_history cm)).

(** [LLMClient.count_tokens] over a tokenizer that may fail
    ([src/ai/llm_client.py]). *)
Definition LLMClient_count_tokens (encode : string -> Result (list Z))
    (text : string) : Z :=
  match encode text with
  | Ok tokens => Z.of_nat (length tokens)
  | Raise _ => len text `div` 4
  end.

(** ** Further vocabulary: the security agent *)

(** [SecurityAgent.add_destructive_pattern] *)
Definition add_destructive_pattern (pattern : string)
    (sa : SecurityAgent) : SecurityAgent :=
  if negb (existsb (String.eqb pattern) (destructive_patterns sa))
  then mkSecurityAgent (enabled sa) (destructive_patterns sa ++ [pattern])
         (user_confirmation_callback sa)
  else sa.

(** An ASCII capital letter, the characters [lower()] rewrites here. *)
Definition is_upper (c : ascii) : bool :=
  let n := N_of_ascii c in ((65 <=? n) && (n <=? 90))%N.

Fixpoint has_upper (s : string) : bool :=
  match s with
  | EmptyString => false
  | String c s' => is_upper c || has_upper s'
  end.

(** The request is a click whose selector or reason, lower-cased,
    contains the configured pattern [pattern]. *)
Definition click_matches (lower : string -> string) (sa : SecurityAgent)
    (parameters : Args) (pattern : string) : Prop :=
  In pattern (destructive_patterns sa)
  /\ exists selector reason_text,
       args_get parameters "selector" (VStr "") = VStr selector
       /\ args_get parameters "reason" (VStr "") = VStr reason_text
       /\ str_contains (lower selector) pattern
          || str_contains (lower reason_text) pattern = true.

(** The request types into a field whose selector, lower-cased, contains a
    payment keyword. *)
Definition payment_field (lower : string -> string) (parameters : Args)
  : Prop :=
  exists text selector,
    args_get parameters "text" (VStr "") = VStr text
    /\ args_get parameters "selector" (VStr "") = VStr selector
    /\ existsb (fun keyword => str_contains (lower selector) keyword)
         payment_keywords = true.

(** The request is one of those the classifier is written to flag: a
    click on a configured pattern or a [type_text] into a payment
    field. *)
Definition destructive_request (lower : string -> string)
    (sa : SecurityAgent) (tool_call : ToolCall) : Prop :=
  (function_name tool_call = "click"
   /\ exists pattern,
        click_matches lower sa (function_arguments tool_call) pattern)
  \/ (function_name tool_call = "type_text"
      /\ payment_field lower (function_arguments tool_call)).



(** ** Further vocabulary: what a run may change *)

(** [m] takes every state to one related to it by [R], whether it returns
    or raises. *)
Definition respects {A} (R : Orchestrator -> Orchestrator -> Prop) (m : M A)
  : Prop :=
  forall o, R o (snd (m o)).

(** A relation between the state before and the state after that the
    bookkeeping of an external call respects: the clock and the record of
    browser actions. *)
Record call_frame (R : Orchestrator -> Orchestrator -> Prop) : Prop := {
  cf_refl : forall o, R o o;
  cf_trans : forall o1 o2 o3, R o1 o2 -> R o2 o3 -> R o1 o3;
  cf_tick : forall o, R o (set_clock (S (clock o)) o);
  cf_browser : forall x o, R o (log_browser_call x o)
}.

(** A relation that the other elementary steps of the execution of a tool
    call respect as well: a warning, a message appended to the
    conversation. *)
Record tool_frame (R : Orchestrator -> Orchestrator -> Prop) : Prop := {
  tf_call : call_frame R;
  tf_warning : forall x o, R o (log_warning x o);
  tf_append : forall m o,
    is_system m = false -> R o (set_context_manager (append_message m) o)
}.

(** The recording of a completion is respected as well. *)
Definition allows_completion (R : Orchestrator -> Orchestrator -> Prop) : Prop :=
  forall s r o,
    R o (set_task true (Some (mkTaskResult s r (current_step o) None)) o).

(** The model never asks for [task_complete]. *)
Definition never_completes (W : World) : Prop :=
  forall t seen response,
    chat_completion W t seen = Ok response ->
    Forall (fun tc => function_name tc <> "task_complete")
           (tool_calls response).

(** The remaining elementary steps of the loop of [execute_task]. *)
Record run_frame (W : World) (R : Orchestrator -> Orchestrator -> Prop)
  : Prop := {
  rf_tool : tool_frame R;
  rf_complete : never_completes W \/ allows_completion R;
  rf_llm : forall x o, R o (log_llm_input x o);
  rf_get : forall o,
    R o (set_context_manager
           (fun cm => snd (get_messages (count_tokens W) true cm)) o);
  rf_step : forall o, R o (set_current_step (current_step o + 1) o)
}.

(** The security agent and the budget are those of the start. *)
Definition same_settings (o o' : Orchestrator) : Prop :=
  security_agent o' = security_agent o /\ max_steps o' = max_steps o.

(** The records of what was done only grow, at their end. *)
Definition logs_grow (o o' : Orchestrator) : Prop :=
  browser_calls o `prefix_of` browser_calls o'
  /\ warnings o `prefix_of` warnings o'
  /\ llm_inputs o `prefix_of` llm_inputs o'
  /\ (clock o <= clock o')%nat.

(** The conversation is that of the start. *)
Definition same_manager (o o' : Orchestrator) : Prop :=
  context_manager o' = context_manager o.

(** The completion flag and the recorded result are those of the start. *)
Definition same_outcome (o o' : Orchestrator) : Prop :=
  task_completed o' = task_completed o /\ task_result o' = task_result o.

(** The manager keeps its budget, its window and the bound of its deque,
    and stays well formed if it was. *)
Definition manager_kept (o o' : Orchestrator) : Prop :=
  let cm := context_manager o in
  let cm' := context_manager o' in
  max_tokens cm' = max_tokens cm
  /\ sliding_window_size cm' = sliding_window_size cm
  /\ maxlen (message_history cm') = maxlen (message_history cm)
  /\ (0 <= maxlen (message_history cm) -> wf_manager cm -> wf_manager cm').

(** An open task stays open. *)
Definition stays_open (o o' : Orchestrator) : Prop :=
  task_completed o = false -> task_completed o' = false.

(** Nothing was sent to the model and the step counter did not move. *)
Definition quiet (o o' : Orchestrator) : Prop :=
  llm_inputs o' = llm_inputs o /\ current_step o' = current_step o.

(** The step counter is [c], and a recorded completion carries it. *)
Definition stamped (c : Z) (o : Orchestrator) : Prop :=
  current_step o = c
  /\ (task_completed o = true ->
      forall r, task_result o = Some r -> steps_taken r = c).

(** The steps counted since [sent] conversations had been sent to the
    model cover the conversations sent since, and a recorded completion
    carries the current step. *)
Definition accounted (sent : nat) (o : Orchestrator) : Prop :=
  0 <= current_step o
  /\ Z.of_nat (length (llm_inputs o)) <= Z.of_nat sent + current_step o
  /\ stamped (current_step o) o.

(** ** Further vocabulary: the results of tool calls *)

(** The conversation once the text of an answer was recorded:
    [if response.content: add_assistant_message(response.content)]. *)
Definition said (response : Response) (cm : ContextManager)
  : ContextManager :=
  match response_content response with
  | Some c => if String.eqb c "" then cm else add_assistant_message c cm
  | None => cm
  end.

(** The conversation once the results [texts] of the first calls of
    [calls] were recorded, one after the other, each under the name of its
    call. *)
Definition record_results (calls : list ToolCall) (texts : list string)
    (cm : ContextManager) : ContextManager :=
  foldl (fun cm p => add_tool_result (function_name (fst p)) (snd p) cm)
        cm (zip calls texts).

(** The tools that [_call_tool] hands to the browser agent. *)
Definition browser_methods : list string :=
  ["click"; "type_text"; "navigate"; "scroll"; "go_back"; "extract_text";
   "wait"; "press_key"].

(** At most one browser action was requested, under the name [name]. *)
Definition one_action (name : string) (o o' : Orchestrator) : Prop :=
  browser_calls o' = browser_calls o
  \/ exists argv, browser_calls o' = browser_calls o ++ [(name, argv)]
                  /\ In name browser_methods.

(** ** The browser agent ([src/agents/browser_agent.py]) *)

(** The double quote, as a string of one character. *)
Definition dquote : string := String (ascii_of_nat 34) EmptyString.

(** The test of [_convert_to_selector]: a hyphen and none of the
    characters that mark a CSS selector. *)
Definition is_ai_id (s : string) : bool :=
  str_contains s "-"
  && negb (existsb (fun char => str_contains s char) ["["; "#"; "."; ":"]).

(** [BrowserAgent._convert_to_selector] *)
Definition _convert_to_selector (ai_id_or_selector : string) : string :=
  if is_ai_id ai_id_or_selector
  then "[data-ai-id=" +:+ dquote +:+ ai_id_or_selector +:+ dquote +:+ "]"
  else ai_id_or_selector.

(** ** The content compressor ([src/context/compression.py]) *)

(** [l[:n]] for a Python list: a negative [n] counts from the end. *)
Definition slice_to {A} (n : Z) (l : list A) : list A :=
  if n <? 0
  then take (Z.to_nat (Z.max 0 (Z.of_nat (length l) + n))) l
  else take (Z.to_nat n) l.

Section Summarize.

(** The elements of a page are dictionaries, compared with [==]. *)
Context {Elem : Type} `{EqDecision Elem}.

(** The test of the first loop,
    [elem.get("type") in ["button", "link", "submit_button"] and elem.get("text")];
    it cannot raise. *)
Variable labelled_control : Elem -> bool.

(** The test of the second loop, ["input" in elem.get("type", "")]; it
    raises [TypeError] when the type is neither a string nor a
    container. *)
Variable input_field : Elem -> Result bool.

(** [elem in prioritized] *)
Definition py_in (elem : Elem) (prioritized : list Elem) : bool :=
  bool_decide (elem ∈ prioritized).

(** The first loop. *)
Definition first_pass (elements : list Elem) : list Elem :=
  foldl (fun prioritized elem =>
           if labelled_control elem then prioritized ++ [elem]
           else prioritized)
        [] elements.

(** The second loop. *)
Fixpoint second_pass (prioritized elements : list Elem)
  : Result (list Elem) :=
  match elements with
  | [] => Ok prioritized
  | elem :: rest =>
      match input_field elem with
      | Ok is_input =>
          second_pass
            (if is_input && negb (py_in elem prioritized)
             then prioritized ++ [elem] else prioritized)
            rest
      | Raise e => Raise e
      end
  end.

(** The third loop, with its [break]. *)
Fixpoint third_pass (max_elements : Z) (prioritized elements : list Elem)
  : list Elem :=
  match elements with
  | [] => prioritized
  | elem :: rest =>
      let prioritized' :=
        if negb (py_in elem prioritized) then prioritized ++ [elem]
        else prioritized in
      if Z.of_nat (length prioritized') >=? max_elements
      then prioritized'
      else third_pass max_elements prioritized' rest
  end.

(** [ContentCompressor.summarize_elements] *)
Definition summarize_elements (elements : list Elem) (max_elements : Z)
  : Result (list Elem) :=
  if Z.of_nat (length elements) <=? max_elements then Ok elements
  else
    match second_pass (first_pass elements) elements with
    | Ok prioritized =>
        Ok (slice_to max_elements
              (third_pass max_elements prioritized elements))
    | Raise e => Raise e
    end.

(** What the second and the third loop do to [prioritized]: they only
    append, what they append comes from the list they walk, and they
    append nothing that is there already. *)
Definition extends (elements p p' : list Elem) : Prop :=
  p `prefix_of` p'
  /\ (forall e, e ∈ p' -> e ∈ p \/ e ∈ elements)
  /\ (NoDup p -> NoDup p').

End Summarize.

(** ** Further concrete inputs *)

(** A manager holding one short user message. *)
Definition greeted_manager : ContextManager :=
  add_user_message "hi" small_manager.

(** A tokenizer that is not installed. *)
Definition no_tokenizer (text : string) : Result (list Z) :=
  Raise (PyExc "KeyError" "model").

(** An agent whose only pattern is capitalised. *)
Definition capitalised : SecurityAgent := mkSecurityAgent true ["Delete"] None.

(** An operator who declines every request. *)
Definition declining : Callback := fun _ _ _ _ => Ok false.

Definition supervised_orchestrator : Orchestrator :=
  Orchestrator_init small_manager
    (mkSecurityAgent true ["delete"] (Some declining)) 2.

(** A click whose selector is a number. *)
Definition click_number : Args := list_to_map [("selector", VInt 3)].

(** Elements as numbers: the even ones are labelled controls, those below
    3 are input fields. *)
Definition sample_elements : list nat := [1; 2; 3; 4]%nat.
Definition sample_input (n : nat) : Result bool := Ok (n <? 3)%nat.

(** * Properties *)

Lemma length_substring_0 (n : nat) (s : string) :
  (n <= String.length s)%nat -> String.length (String.substring 0 n s) = n.
Proof.
  revert s. induction n as [|n IH]; intros [|c s] Hle; simpl in *;
    try reflexivity; try lia.
  rewrite IH; lia.
Qed.

Lemma length_app_string (s1 s2 : string) :
  String.length (s1 +:+ s2) = (String.length s1 + String.length s2)%nat.
Proof. induction s1 as [|c s1 IH]; simpl; [reflexivity | now rewrite IH]. Qed.

Lemma len_truncated (c : string) : len c > 5000 -> len (truncated c) = 4515.
Proof.
  unfold len, truncated, str_take. intros H.
  rewrite length_app_string, length_substring_0 by lia.
  reflexivity.
Qed.

(** ** The store under truncation *)

Lemma lookup_total_default (h : list Message) (r : ref) :
  (length h <= r)%nat -> h !!! r = mkMessage "" "".
Proof.
  intros Hge. rewrite list_lookup_total_alt.
  now rewrite (proj2 (lookup_ge_None h r)) by lia.
Qed.

Lemma truncatable_valid (h : list Message) (r : ref) :
  truncatable (h !!! r) = true -> (r < length h)%nat.
Proof.
  intros Ht. destruct (Nat.lt_ge_cases r (length h)) as [|Hge]; [assumption|].
  rewrite (lookup_total_default h r Hge) in Ht. discriminate Ht.
Qed.

Lemma truncate_step_eq (h : list Message) (r : ref) :
  truncate_step h r =
  if truncatable (h !!! r)
  then <[r := mkMessage (role (h !!! r)) (truncated (content (h !!! r)))]> h
  else h.
Proof.
  unfold truncate_step, truncatable.
  destruct (is_system (h !!! r)); simpl; [reflexivity|].
  destruct (startswith (content (h !!! r)) "TOOL RESULT"); simpl; reflexivity.
Qed.

Lemma truncated_not_truncatable (m : Message) :
  truncatable m = true ->
  truncatable (mkMessage (role m) (truncated (content m))) = false.
Proof.
  unfold truncatable. intros H.
  apply andb_true_iff in H as [_ Hlen]. apply Z.gtb_lt in Hlen.
  apply andb_false_iff. right. simpl.
  rewrite len_truncated by lia. reflexivity.
Qed.

(** What one pass of the loop body does to an arbitrary address. *)
Lemma truncate_step_lookup (h : list Message) (r r' : ref) :
  truncate_step h r !!! r' =
  if truncatable (h !!! r) && bool_decide (r = r')
  then mkMessage (role (h !!! r')) (truncated (content (h !!! r')))
  else h !!! r'.
Proof.
  rewrite truncate_step_eq.
  destruct (truncatable (h !!! r)) eqn:Ht; simpl; [|reflexivity].
  case_bool_decide as Heq.
  - subst r'. apply list_lookup_total_insert_eq. now apply truncatable_valid.
  - now apply list_lookup_total_insert_ne.
Qed.

Lemma truncate_step_role (h : list Message) (r r' : ref) :
  role (truncate_step h r !!! r') = role (h !!! r').
Proof.
  rewrite truncate_step_lookup.
  destruct (truncatable (h !!! r) && bool_decide (r = r')); reflexivity.
Qed.

(** A message the loop would not touch is left alone by a pass on any
    address, and stays untouchable. *)
Lemma truncate_step_stable (h : list Message) (r r' : ref) :
  truncatable (h !!! r') = false -> truncate_step h r !!! r' = h !!! r'.
Proof.
  intros Hn. rewrite truncate_step_lookup.
  destruct (truncatable (h !!! r)) eqn:Ht; simpl; [|reflexivity].
  case_bool_decide as Heq; [|reflexivity].
  subst r'. congruence.
Qed.

Lemma truncate_step_done (h : list Message) (r : ref) :
  truncatable (truncate_step h r !!! r) = false.
Proof.
  rewrite truncate_step_lookup.
  destruct (truncatable (h !!! r)) eqn:Ht; simpl; [|assumption].
  rewrite bool_decide_eq_true_2 by reflexivity.
  now apply truncated_not_truncatable.
Qed.

Lemma truncate_all_stable (l : list ref) (h : list Message) (r' : ref) :
  truncatable (h !!! r') = false -> foldl truncate_step h l !!! r' = h !!! r'.
Proof.
  revert h. induction l as [|r l IH]; intros h Hn; simpl; [reflexivity|].
  rewrite IH; [now apply truncate_step_stable|].
  now rewrite truncate_step_stable.
Qed.

Lemma truncate_all_role (l : list ref) (h : list Message) (r' : ref) :
  role (foldl truncate_step h l !!! r') = role (h !!! r').
Proof.
  revert h. induction l as [|r l IH]; intros h; simpl; [reflexivity|].
  now rewrite IH, truncate_step_role.
Qed.

(** Every address is either untouched or truncated exactly once. *)
Lemma truncate_all_lookup (l : list ref) (h : list Message) (r' : ref) :
  foldl truncate_step h l !!! r' = h !!! r'
  \/ (truncatable (h !!! r') = true /\
      foldl truncate_step h l !!! r'
      = mkMessage (role (h !!! r')) (truncated (content (h !!! r')))).
Proof.
  revert h. induction l as [|r l IH]; intros h; simpl; [now left|].
  destruct (truncatable (h !!! r')) eqn:Ht.
  - destruct (IH (truncate_step h r)) as [Hsame | [Ht' Hcut]].
    + rewrite Hsame, truncate_step_lookup.
      destruct (truncatable (h !!! r) && bool_decide (r = r')); auto.
    + right. split; [reflexivity|].
      rewrite Hcut. rewrite truncate_step_lookup in Ht' |- *.
      destruct (truncatable (h !!! r) && bool_decide (r = r')); [|reflexivity].
      rewrite truncated_not_truncatable in Ht' by assumption. discriminate.
  - left. rewrite truncate_all_stable; now rewrite truncate_step_stable.
Qed.

Lemma truncate_all_member (l : list ref) (h : list Message) (r : ref) :
  r ∈ l -> truncatable (foldl truncate_step h l !!! r) = false.
Proof.
  revert h. induction l as [|r0 l IH]; intros h Hin; [inversion Hin|].
  simpl. apply elem_of_cons in Hin as [-> | Hin].
  - rewrite truncate_all_stable; apply truncate_step_done.
  - now apply IH.
Qed.

Lemma truncate_all_fixpoint (l : list ref) (h : list Message) :
  Forall (fun r => truncatable (h !!! r) = false) l ->
  foldl truncate_step h l = h.
Proof.
  induction 1 as [|r l Hr _ IH]; simpl; [reflexivity|].
  rewrite truncate_step_eq, Hr. exact IH.
Qed.

Lemma truncate_all_idempotent (l : list ref) (h : list Message) :
  foldl truncate_step (foldl truncate_step h l) l = foldl truncate_step h l.
Proof.
  apply truncate_all_fixpoint, Forall_forall. intros r Hr.
  now apply truncate_all_member.
Qed.

(** ** The window of [_compress_messages] *)

Lemma split_step_ext (h h' : list Message) :
  (forall r, is_system (h' !!! r) = is_system (h !!! r)) ->
  forall l acc, foldl (split_step h') acc l = foldl (split_step h) acc l.
Proof.
  intros Hsame. induction l as [|r l IH]; intros acc; simpl; [reflexivity|].
  rewrite IH. unfold split_step. now rewrite Hsame.
Qed.

Lemma split_step_others (h : list Message) (l : list ref) :
  Forall (fun r => is_system (h !!! r) = false) l ->
  forall s o, foldl (split_step h) (s, o) l = (s, o ++ l).
Proof.
  induction 1 as [|r l Hr _ IH]; intros s o; simpl.
  - now rewrite app_nil_r.
  - unfold split_step at 2. rewrite Hr. simpl. rewrite IH.
    now rewrite <- app_assoc.
Qed.

Lemma split_step_well_split (h : list Message) (l : list ref) :
  forall acc, well_split h acc -> well_split h (foldl (split_step h) acc l).
Proof.
  induction l as [|r l IH]; intros acc [Hs Ho]; simpl; [now split|].
  apply IH. unfold split_step.
  destruct (is_system (h !!! r)) eqn:Hr; split; simpl; auto.
  - intros s [= <-]. exact Hr.
  - apply Forall_app. split; [assumption|]. now constructor.
Qed.

Lemma split_messages_well_split (h : list Message) (l : list ref) :
  well_split h (split_messages h l).
Proof.
  apply split_step_well_split. split; simpl; [discriminate | constructor].
Qed.

Lemma slice_from_Forall {A} (P : A -> Prop) (z : Z) (l : list A) :
  Forall P l -> Forall P (slice_from z l).
Proof. intros H. unfold slice_from. destruct (z <? 0); now apply Forall_drop. Qed.

Lemma slice_from_window {A} (w : Z) (l : list A) :
  0 <= w -> slice_from (- w) (slice_from (- w) l) = slice_from (- w) l.
Proof.
  intros Hw. unfold slice_from.
  destruct (- w <? 0) eqn:Hneg.
  - apply Z.ltb_lt in Hneg. rewrite length_drop.
    replace (Z.to_nat (Z.max 0 (Z.of_nat (length l - Z.to_nat (Z.max 0 (Z.of_nat (length l) + - w))) + - w)))
      with 0%nat by lia.
    reflexivity.
  - apply Z.ltb_ge in Hneg. replace (Z.to_nat (- w)) with 0%nat by lia.
    reflexivity.
Qed.

Lemma window_window (h h' : list Message) (w : Z) (messages : list ref) :
  (forall r, is_system (h' !!! r) = is_system (h !!! r)) ->
  0 <= w ->
  window h' w (window h w messages) = window h w messages.
Proof.
  intros Hsame Hw. unfold window at 1.
  assert (split_messages h' (window h w messages)
          = (fst (split_messages h messages),
             slice_from (- w) (snd (split_messages h messages)))) as ->.
  { unfold window.
    pose proof (split_messages_well_split h messages) as [Hs Ho].
    destruct (split_messages h messages) as [system_msg other_msgs].
    simpl in *. unfold split_messages.
    rewrite (split_step_ext h h' Hsame).
    assert (Forall (fun r => is_system (h !!! r) = false)
                   (slice_from (- w) other_msgs)) as Hrecent
      by now apply slice_from_Forall.
    destruct system_msg as [s|]; simpl.
    - unfold split_step at 2. rewrite (Hs s eq_refl). simpl.
      now rewrite split_step_others.
    - now rewrite split_step_others. }
  simpl. now rewrite slice_from_window.
Qed.

Lemma truncate_all_is_system (l : list ref) (h : list Message) (r : ref) :
  is_system (foldl truncate_step h l !!! r) = is_system (h !!! r).
Proof. unfold is_system. now rewrite truncate_all_role. Qed.

(** Every manager that [__init__] builds has a window that is not
    negative. *)
Lemma ContextManager_init_window (max_tok w : Z) (cm : ContextManager) :
  ContextManager_init max_tok w = Ok cm ->
  0 <= sliding_window_size cm /\ maxlen (message_history cm) = 2 * w.
Proof.
  unfold ContextManager_init. destruct (w * 2 <? 0) eqn:Hneg; [discriminate|].
  intros [= <-]. apply Z.ltb_ge in Hneg. simpl. lia.
Qed.

Section ContextFacts.

Variable count_tokens : string -> Z.

Lemma compress_eq (cm : ContextManager) (messages : list ref) :
  _compress_messages count_tokens cm messages
  = let compressed := window (heap cm) (sliding_window_size cm) messages in
    (compressed,
     if _count_messages_tokens count_tokens (heap cm) compressed
        >? max_tokens cm
     then set_heap cm (foldl truncate_step (heap cm) compressed)
     else cm).
Proof.
  unfold _compress_messages, window.
  destruct (split_messages (heap cm) messages) as [s o]. simpl.
  now destruct (_ >? _).
Qed.

(** C6: for every message list, over the token budget or not, a second
    pass of [_compress_messages] over the output of the first, in the store
    the first pass left behind, returns the same list and changes nothing
    more (idempotence); and the output is determined by the buffer, the
    window and the budget alone: two managers that agree on them produce
    the same list and the same store.  The window size of a manager is
    never negative, [deque(maxlen=...)] refusing to build one otherwise. *)
Theorem compress_idempotent (cm : ContextManager) (messages : list ref) :
  0 <= sliding_window_size cm ->
  _compress_messages count_tokens
    (snd (_compress_messages count_tokens cm messages))
    (fst (_compress_messages count_tokens cm messages))
  = _compress_messages count_tokens cm messages
  /\ forall cm2,
       heap cm2 = heap cm ->
       sliding_window_size cm2 = sliding_window_size cm ->
       max_tokens cm2 = max_tokens cm ->
       fst (_compress_messages count_tokens cm2 messages)
       = fst (_compress_messages count_tokens cm messages)
       /\ heap (snd (_compress_messages count_tokens cm2 messages))
          = heap (snd (_compress_messages count_tokens cm messages)).
Proof.
  intros Hw. split.
  2: { intros cm2 Hh Hs Hm. rewrite !compress_eq. cbn zeta. cbn [fst snd].
       rewrite Hh, Hs, Hm.
       destruct (_ >? _); split; (reflexivity || exact Hh). }
  rewrite (compress_eq cm messages). cbn zeta. cbn [fst snd].
  set (compressed := window (heap cm) (sliding_window_size cm) messages).
  rewrite compress_eq. cbn zeta.
  assert (forall cm', heap cm' = heap cm \/
            heap cm' = foldl truncate_step (heap cm) compressed ->
            sliding_window_size cm' = sliding_window_size cm ->
            window (heap cm') (sliding_window_size cm') compressed
            = compressed) as Hwin.
  { intros cm' Hh ->. apply window_window; [|assumption].
    intros r. destruct Hh as [-> | ->];
      [reflexivity | apply truncate_all_is_system]. }
  destruct (_count_messages_tokens count_tokens (heap cm) compressed
            >? max_tokens cm) eqn:Hover.
  - rewrite Hwin by (auto || reflexivity).
    cbn [heap set_heap sliding_window_size max_tokens].
    rewrite truncate_all_idempotent.
    destruct (_count_messages_tokens count_tokens
                (foldl truncate_step (heap cm) compressed) compressed
              >? max_tokens cm); reflexivity.
  - rewrite Hwin by (auto || reflexivity). now rewrite Hover.
Qed.

End ContextFacts.

Lemma tool_result_content_prefix (tool_name res : string) :
  startswith (tool_result_content tool_name res) "TOOL RESULT" = true.
Proof. reflexivity. Qed.

Lemma truncated_differs (c : string) : len c > 5000 -> truncated c <> c.
Proof.
  intros Hlen Heq. apply (f_equal len) in Heq.
  rewrite len_truncated in Heq by assumption. lia.
Qed.

Section ContextClaims.

Variable count_tokens : string -> Z.

Lemma compress_heap (cm : ContextManager) (messages : list ref) :
  heap (snd (_compress_messages count_tokens cm messages)) = heap cm
  \/ heap (snd (_compress_messages count_tokens cm messages))
     = foldl truncate_step (heap cm)
         (fst (_compress_messages count_tokens cm messages)).
Proof.
  rewrite compress_eq. cbn zeta. cbn [fst snd].
  destruct (_ >? _); [right | left]; reflexivity.
Qed.

Lemma compress_frame (cm : ContextManager) (messages : list ref) :
  let cm' := snd (_compress_messages count_tokens cm messages) in
  max_tokens cm' = max_tokens cm
  /\ sliding_window_size cm' = sliding_window_size cm
  /\ message_history cm' = message_history cm
  /\ system_message cm' = system_message cm.
Proof.
  rewrite compress_eq. cbn zeta. cbn [fst snd].
  destruct (_ >? _); repeat split; reflexivity.
Qed.

(** C5: for every message list and every message object, compression
    either leaves the object as it was or, when the object is not a system
    message, does not start with the tool-result marker and is longer than
    5000 characters, replaces its content by its first 4500 characters
    followed by the truncation marker.  A tool result, which
    [add_tool_result] stores with that marker in front, keeps its content
    whatever its length. *)
Theorem compress_keeps_tool_results
    (cm : ContextManager) (messages : list ref) (r : ref) :
  let m := heap cm !!! r in
  let m' := heap (snd (_compress_messages count_tokens cm messages)) !!! r in
  (m' = m
   \/ (is_system m = false
       /\ startswith (content m) "TOOL RESULT" = false
       /\ len (content m) > 5000
       /\ m' = mkMessage (role m) (truncated (content m))))
  /\ (startswith (content m) "TOOL RESULT" = true -> m' = m)
  /\ (forall tool_name res,
        m = mkMessage "user" (tool_result_content tool_name res) -> m' = m).
Proof.
  cbn zeta.
  assert (forall c, startswith c "TOOL RESULT" = true ->
                    forall rl, truncatable (mkMessage rl c) = false) as Htool.
  { intros c Hc rl. unfold truncatable. simpl. rewrite Hc.
    now rewrite andb_false_r. }
  assert (truncatable (heap cm !!! r) = false ->
          heap (snd (_compress_messages count_tokens cm messages)) !!! r
          = heap cm !!! r) as Hkeep.
  { intros Hn. destruct (compress_heap cm messages) as [-> | ->];
      [reflexivity | now apply truncate_all_stable]. }
  split; [|split].
  - destruct (compress_heap cm messages) as [-> | ->]; [now left|].
    destruct (truncate_all_lookup
                (fst (_compress_messages count_tokens cm messages))
                (heap cm) r) as [Hsame | [Ht Hcut]]; [now left|].
    right. unfold truncatable in Ht.
    apply andb_true_iff in Ht as [Ht Hlen].
    apply andb_true_iff in Ht as [Hsys Htool'].
    apply negb_true_iff in Hsys, Htool'. apply Z.gtb_lt in Hlen.
    repeat split; [assumption | assumption | lia | assumption].
  - intros Hc. apply Hkeep. destruct (heap cm !!! r) as [rl c].
    now apply Htool.
  - intros tool_name res Hm. apply Hkeep. rewrite Hm.
    apply Htool, tool_result_content_prefix.
Qed.

Lemma get_messages_cases (cm : ContextManager) :
  let messages :=
    (if true && negb (String.eqb (content (heap cm !!! system_message cm)) "")
     then [system_message cm] else [])
    ++ items (message_history cm) in
  (get_messages count_tokens true cm = (messages, cm)
   /\ _count_messages_tokens count_tokens (heap cm) messages <= max_tokens cm)
  \/ get_messages count_tokens true cm
     = _compress_messages count_tokens cm messages.
Proof.
  cbn zeta. unfold get_messages.
  destruct (_ >? _) eqn:Hover; [now right | left].
  split; [reflexivity|]. rewrite Z.gtb_ltb in Hover.
  apply Z.ltb_ge in Hover. exact Hover.
Qed.

Lemma get_messages_frame (cm : ContextManager) :
  let cm' := snd (get_messages count_tokens true cm) in
  max_tokens cm' = max_tokens cm
  /\ sliding_window_size cm' = sliding_window_size cm
  /\ message_history cm' = message_history cm
  /\ system_message cm' = system_message cm.
Proof.
  cbn zeta. destruct (get_messages_cases cm) as [[-> _] | ->].
  - repeat split; reflexivity.
  - apply compress_frame.
Qed.

Lemma get_messages_stable (cm : ContextManager) (r : ref) :
  truncatable (heap cm !!! r) = false ->
  heap (snd (get_messages count_tokens true cm)) !!! r = heap cm !!! r.
Proof.
  intros Hn. destruct (get_messages_cases cm) as [[-> _] | ->];
    [reflexivity|].
  destruct (compress_heap cm (((if true && negb (String.eqb (content (heap cm !!! system_message cm)) "")
     then [system_message cm] else [])
    ++ items (message_history cm)))) as [-> | ->];
    [reflexivity | now apply truncate_all_stable].
Qed.

Lemma after_get_messages_stable (n : nat) (cm : ContextManager) (r : ref) :
  truncatable (heap cm !!! r) = false ->
  heap (after_get_messages count_tokens n cm) !!! r = heap cm !!! r
  /\ message_history (after_get_messages count_tokens n cm)
     = message_history cm.
Proof.
  revert cm. induction n as [|n IH]; intros cm Hn; simpl; [now split|].
  destruct (IH (snd (get_messages count_tokens true cm))) as [Hh Hm].
  - now rewrite get_messages_stable.
  - rewrite Hh, Hm, get_messages_stable by assumption.
    split; [reflexivity|]. apply get_messages_frame.
Qed.

(** C9: [get_messages] changes the stored history.  When the messages it
    returns are over the token budget, a long plain message [r] of the
    deque that is among them has its content cut in the store itself: the
    deque still holds the same object, its content is now the truncated
    text and differs from the original, and it stays so after any number of
    later calls. *)
Theorem get_messages_mutates_history (cm : ContextManager) (r : ref) :
  r ∈ items (message_history cm) ->
  r ∈ fst (get_messages count_tokens true cm) ->
  truncatable (heap cm !!! r) = true ->
  _count_messages_tokens count_tokens (heap cm)
    (fst (get_messages count_tokens true cm)) > max_tokens cm ->
  let cm' := snd (get_messages count_tokens true cm) in
  message_history cm' = message_history cm
  /\ heap cm' !!! r
     = mkMessage (role (heap cm !!! r)) (truncated (content (heap cm !!! r)))
  /\ content (heap cm' !!! r) <> content (heap cm !!! r)
  /\ forall n,
       heap (after_get_messages count_tokens n cm') !!! r = heap cm' !!! r
       /\ message_history (after_get_messages count_tokens n cm')
          = message_history cm.
Proof.
  intros Hhist Hin Ht Hover. cbn zeta.
  assert (heap (snd (get_messages count_tokens true cm)) !!! r
          = mkMessage (role (heap cm !!! r))
                      (truncated (content (heap cm !!! r)))) as Hcut.
  { destruct (get_messages_cases cm) as [[Heq Hle] | Heq].
    - rewrite Heq in Hover. cbn [fst] in Hover. lia.
    - rewrite Heq in Hin, Hover |- *. rewrite compress_eq in Hin, Hover |- *.
      cbn zeta in *. cbn [fst snd] in *.
      apply Z.gt_lt, Z.gtb_lt in Hover. rewrite Hover.
      cbn [heap set_heap].
      match goal with
      | |- foldl truncate_step ?h ?l !!! r = _ =>
          destruct (truncate_all_lookup l h r) as [Hsame | [_ Hc]];
          [|exact Hc];
          pose proof (truncate_all_member l h r Hin) as Hdone
      end.
      rewrite Hsame in Hdone. congruence. }
  pose proof (get_messages_frame cm) as (_ & _ & Hm & _). cbn zeta in Hm.
  split; [exact Hm|]. split; [exact Hcut|]. split.
  - rewrite Hcut. simpl. apply truncated_differs.
    unfold truncatable in Ht. apply andb_true_iff in Ht as [_ Hlen].
    apply Z.gtb_lt in Hlen. lia.
  - intros n.
    destruct (after_get_messages_stable n
                (snd (get_messages count_tokens true cm)) r) as [Hh Hm'].
    + rewrite Hcut. now apply truncated_not_truncatable.
    + split; [exact Hh|]. now rewrite Hm'.
Qed.

End ContextClaims.

(** ** Reasoning about computations *)

Section Hoare.

Context {A B : Type} (P : Orchestrator -> Prop).

Lemma preserves_ret (a : A) : preserves P (ret a).
Proof. intros o H. exact H. Qed.

Lemma preserves_lift (r : Result A) : preserves P (lift r).
Proof. intros o H. exact H. Qed.

Lemma preserves_gets (f : Orchestrator -> A) : preserves P (gets f).
Proof. intros o H. exact H. Qed.

Lemma preserves_modify (f : Orchestrator -> Orchestrator) :
  (forall o, P o -> P (f o)) -> preserves P (modify f).
Proof. intros Hf o H. now apply Hf. Qed.

Lemma preserves_bind (m : M A) (k : A -> M B) :
  preserves P m -> (forall a, preserves P (k a)) -> preserves P (bind m k).
Proof.
  intros Hm Hk o H. unfold bind. specialize (Hm o H).
  destruct (m o) as [[a|e] o']; simpl in *; [now apply Hk | assumption].
Qed.

Lemma preserves_try_except (body : M A) (handler : exn -> M A) :
  preserves P body -> (forall e, preserves P (handler e)) ->
  preserves P (try_except body handler).
Proof.
  intros Hb Hh o H. unfold try_except. specialize (Hb o H).
  destruct (body o) as [[a|e] o']; simpl in *; [assumption | now apply Hh].
Qed.

Lemma preserves_for_each (l : list A) (f : A -> M unit) :
  (forall x, preserves P (f x)) -> preserves P (for_each l f).
Proof.
  intros Hf. induction l as [|x l IH]; simpl.
  - intros o H. exact H.
  - intros o H. unfold bind. specialize (Hf x o H).
    destruct (f x o) as [[[]|e] o']; simpl in *; [now apply IH | assumption].
Qed.

Lemma never_raises_ret (a : A) : never_raises (ret a).
Proof. intros o. now exists a, o. Qed.

Lemma never_raises_try_except (body : M A) (handler : exn -> M A) :
  (forall e, never_raises (handler e)) -> never_raises (try_except body handler).
Proof.
  intros Hh o. unfold try_except.
  destruct (body o) as [[a|e] o']; [now exists a, o' | apply Hh].
Qed.

End Hoare.


(** Follows the syntax of a computation through the combinators; the goals
    about named functions are left to the caller. *)
Ltac preserve_step :=
  repeat match goal with
    | |- preserves _ (ret _) => apply preserves_ret
    | |- preserves _ (lift _) => apply preserves_lift
    | |- preserves _ (gets _) => apply preserves_gets
    | HP : engine_invariant _ |- preserves _ tick =>
        intros ? ?; apply (inv_clock _ HP); assumption
    | HP : engine_invariant _ |- preserves _ (modify _) =>
        apply preserves_modify; intros ? ?;
        first [ apply (inv_context _ HP) | apply (inv_browser _ HP)
              | apply (inv_llm _ HP) | apply (inv_warning _ HP) ];
        assumption
    | |- preserves _ (bind _ _) => apply preserves_bind; [|intro]
    | |- preserves _ (try_except _ _) => apply preserves_try_except; [|intro]
    | |- preserves _ (for_each _ _) => apply preserves_for_each; intro
    | |- preserves _ (if ?b then _ else _) => destruct b
    | |- preserves _ (match ?x with _ => _ end) => destruct x
    end.

Section EngineFacts.

Variable W : World.
Variable P : Orchestrator -> Prop.
Hypothesis HP : engine_invariant P.

Lemma check_action_inv name args : preserves P (check_action W name args).
Proof. unfold check_action. preserve_step. Qed.

Lemma call_browser_inv method args : preserves P (call_browser W method args).
Proof. unfold call_browser. preserve_step. Qed.

Lemma call_tool_inv name args : preserves P (_call_tool W name args).
Proof.
  unfold _call_tool. apply preserves_try_except; [|intro; apply preserves_ret].
  repeat match goal with
         | |- preserves _ (if ?b then _ else _) => destruct b
         end;
    try (preserve_step; apply call_browser_inv).
  intros o H. simpl. now apply (inv_complete _ HP).
Qed.

Lemma execute_tool_call_inv tc : preserves P (_execute_tool_call W tc).
Proof.
  unfold _execute_tool_call, record_tool_result.
  apply preserves_bind; [apply preserves_gets|]. intros sa.
  assert (preserves P
            (res <- _call_tool W (function_name tc) (function_arguments tc) ;;
             modify (set_context_manager
                       (add_tool_result (function_name tc) (json_dumps W res))))%M)
    as Hrun.
  { apply preserves_bind; [apply call_tool_inv|]. intro. preserve_step. }
  destruct (enabled sa); [|exact Hrun].
  apply preserves_bind; [apply check_action_inv|]. intros v.
  destruct (negb (safe v)); [|exact Hrun].
  preserve_step.
Qed.

Lemma process_llm_response_inv response :
  preserves P (_process_llm_response W response).
Proof.
  unfold _process_llm_response.
  apply preserves_bind; [preserve_step|]. intros _.
  destruct (tool_calls response) as [|tc calls]; [preserve_step|].
  apply preserves_for_each. apply execute_tool_call_inv.
Qed.

Lemma get_messages_M_inv : preserves P (get_messages_M W).
Proof.
  intros o H. unfold get_messages_M.
  destruct (get_messages _ _ _) as [ms cm]. now apply (inv_context _ HP).
Qed.

Lemma plan_and_act_inv task : preserves P (plan_and_act W task).
Proof.
  unfold plan_and_act.
  preserve_step; (apply get_messages_M_inv || apply process_llm_response_inv).
Qed.

Lemma attempt_recovery_inv err : preserves P (_attempt_recovery W err).
Proof. unfold _attempt_recovery. preserve_step. Qed.

(** The statements of the loop body after the increment. *)
Lemma loop_body_inv task o :
  P (set_current_step (current_step o + 1) o) ->
  P (snd (loop_body W task o)).
Proof.
  intros H.
  assert (preserves P
            (try_except (plan_and_act W task ;;; ret None)
               (fun e =>
                  recovery_result <- _attempt_recovery W (exc_str e) ;;
                  if negb recovery_result then
                    step' <- gets current_step ;;
                    ret (Some (mkTaskResult (VBool false) (VStr "") step'
                                            (Some (exc_str e))))
                  else ret None))%M) as Hrest.
  { apply preserves_try_except; [|intro].
    - apply preserves_bind; [apply plan_and_act_inv | intro; apply preserves_ret].
    - apply preserves_bind; [apply attempt_recovery_inv|]. intros b.
      preserve_step. }
  exact (Hrest _ H).
Qed.

End EngineFacts.

Section EngineTotal.

Variable W : World.

(** [_attempt_recovery] returns [False] only when the recovery prompt
    could not be built. *)
Lemma attempt_recovery_spec (err : string) (o : Orchestrator) :
  exists b o', _attempt_recovery W err o = (Ok b, o')
    /\ (b = false ->
        exists x, error_recovery_prompt W err
                    ("Шаг " +:+ pretty (current_step o)) = Raise x).
Proof.
  unfold _attempt_recovery, bind, try_except, modify, gets, lift, ret.
  cbn [current_step log_warning].
  destruct (error_recovery_prompt W err _) as [p|x] eqn:Hp.
  - eexists true, _. split; [reflexivity|discriminate].
  - eexists false, _. split; [reflexivity|]. eauto.
Qed.

(** The loop body never raises; what it returns early is a failure
    carrying the text of an exception whose recovery failed. *)
Lemma loop_body_spec (task : string) (o : Orchestrator) :
  exists r o', loop_body W task o = (Ok r, o')
    /\ forall tr, r = Some tr ->
         success tr = VBool false /\ result tr = VStr ""
         /\ steps_taken tr = current_step o'
         /\ exists msg p x, error tr = Some msg
              /\ error_recovery_prompt W msg p = Raise x.
Proof.
  unfold loop_body, bind at 1 2, gets at 1, modify at 1. cbn beta iota.
  set (o1 := set_current_step (current_step o + 1) o).
  unfold try_except.
  destruct ((plan_and_act W task ;;; ret None)%M o1) as [[r|e] o2] eqn:Hbody.
  - exists r, o2. split; [reflexivity|]. intros tr ->.
    unfold bind in Hbody. destruct (plan_and_act W task o1) as [[[]|e] o3];
      discriminate.
  - unfold bind.
    destruct (attempt_recovery_spec (exc_str e) o2) as (b & o3 & -> & Hb).
    destruct b; simpl.
    + exists None, o3. split; [reflexivity | discriminate].
    + eexists _, o3. split; [reflexivity|]. intros tr [= <-]. simpl.
      destruct (Hb eq_refl) as [x Hx]. repeat split. eauto.
Qed.

End EngineTotal.

(** ** The main loop *)

Lemma progress_invariant (c mx : Z) : engine_invariant (progress_inv c mx).
Proof.
  split; try (intros; assumption).
  intros s r o [Hc _]. split; [exact Hc|]. intros _. discriminate.
Qed.

Lemma budget_invariant (c mx : Z) :
  0 <= c <= mx -> engine_invariant (budget_inv c mx).
Proof.
  intros Hc. split; try (intros; assumption).
  intros s r o [[Hs Hm] _]. split; [split; assumption|].
  intros tr [= <-]. simpl in *. lia.
Qed.

Section Loop.

Variable W : World.

Lemma main_loop_spec (task : string) (fuel : nat) :
  forall o,
    (Z.to_nat (max_steps o - current_step o) <= fuel)%nat ->
    completed_has_result o ->
    exists r o',
      main_loop W fuel task o = Some (Ok r, o')
      /\ max_steps o' = max_steps o
      /\ current_step o <= current_step o'
      /\ (current_step o <= max_steps o -> current_step o' <= max_steps o)
      /\ completed_has_result o'
      /\ (0 <= current_step o -> result_in_budget o -> result_in_budget o')
      /\ match r with
         | None => task_completed o' = true \/ max_steps o <= current_step o'
         | Some tr => failed_recovery W tr /\ steps_taken tr = current_step o'
         end.
Proof.
  induction fuel as [|fuel IH]; intros o Hfuel Hdone; simpl;
    destruct (negb (task_completed o) && (current_step o <? max_steps o))
      eqn:Hguard.
  - apply andb_true_iff in Hguard as [_ Hlt]. apply Z.ltb_lt in Hlt. lia.
  - exists None, o.
    split; [reflexivity|]. split; [reflexivity|]. split; [lia|].
    split; [tauto|]. split; [assumption|]. split; [tauto|].
    apply andb_false_iff in Hguard as [Hc | Hlt].
    + left. now destruct (task_completed o).
    + right. apply Z.ltb_ge in Hlt. exact Hlt.
  - apply andb_true_iff in Hguard as [_ Hlt]. apply Z.ltb_lt in Hlt.
    destruct (loop_body_spec W task o) as (r & o1 & Hbody & Hret).
    pose proof (loop_body_inv W _ (progress_invariant (current_step o + 1)
                                     (max_steps o)) task o) as Hprog.
    rewrite Hbody in Hprog. destruct Hprog as [[Hstep Hmax] Hdone1].
    { split; [split; reflexivity | exact Hdone]. }
    assert (0 <= current_step o -> result_in_budget o -> result_in_budget o1)
      as Hbudget.
    { intros Hpos Hres.
      pose proof (loop_body_inv W _ (budget_invariant (current_step o + 1)
                    (max_steps o) ltac:(lia)) task o) as Hb.
      rewrite Hbody in Hb. apply Hb.
      split; [split; reflexivity | exact Hres]. }
    simpl in Hstep, Hmax, Hdone1. rewrite Hbody.
    destruct r as [tr|].
    + exists (Some tr), o1. destruct (Hret tr eq_refl) as (Hs & Hr & Hst & He).
      split; [reflexivity|]. split; [exact Hmax|]. split; [lia|].
      split; [lia|]. split; [exact Hdone1|]. split; [exact Hbudget|].
      split; [|exact Hst]. split; [exact Hs|]. split; [exact Hr | exact He].
    + destruct (IH o1) as (r & o' & Hloop & Hm & Hc & Hle & Hd & Hb & Hr);
        [lia | assumption |].
      exists r, o'. split; [exact Hloop|].
      rewrite Hmax, Hstep in *.
      split; [exact Hm|]. split; [lia|]. split; [lia|].
      split; [exact Hd|]. split; [|exact Hr].
      intros Hpos Hres. apply Hb; [lia|]. now apply Hbudget.
  - exists None, o.
    split; [reflexivity|]. split; [reflexivity|]. split; [lia|].
    split; [tauto|]. split; [assumption|]. split; [tauto|].
    apply andb_false_iff in Hguard as [Hc | Hlt].
    + left. now destruct (task_completed o).
    + right. apply Z.ltb_ge in Hlt. exact Hlt.
Qed.

Lemma execute_task_spec (task : string) (o : Orchestrator) :
  exists tr o',
    execute_task W task o = Some (Ok tr, o')
    /\ max_steps o' = max_steps o
    /\ ((task_completed o' = true /\ task_result o' = Some tr
         /\ (0 <= max_steps o -> 0 <= steps_taken tr <= max_steps o))
        \/ (failed_recovery W tr /\ steps_taken tr = current_step o'
            /\ 0 <= current_step o'
            /\ (0 <= max_steps o -> current_step o' <= max_steps o))
        \/ (tr = mkTaskResult (VBool false) (VStr "") (current_step o')
                   (Some "Превышен лимит шагов")
            /\ 0 <= current_step o'
            /\ max_steps o <= current_step o'
            /\ (0 <= max_steps o -> current_step o' <= max_steps o))).
Proof.
  unfold execute_task.
  set (o0 := begin_task W task o).
  destruct (main_loop_spec task (Z.to_nat (max_steps o0)) o0)
    as (r & o' & Hloop & Hm & Hc & Hle & Hd & Hb & Hr).
  { simpl. lia. }
  { intros Hfalse. discriminate Hfalse. }
  rewrite Hloop. change (max_steps o0) with (max_steps o) in *.
  change (current_step o0) with 0 in *.
  destruct r as [tr|].
  - exists tr, o'. split; [reflexivity|]. split; [exact Hm|].
    right. left. destruct Hr as [Hf Hs].
    split; [exact Hf|]. split; [exact Hs|]. split; lia.
  - unfold conclude, bind, gets. cbn beta iota.
    destruct (task_completed o') eqn:Hcomp.
    + destruct (task_result o') as [tr|] eqn:Hres.
      * exists tr, o'. split; [reflexivity|]. split; [exact Hm|]. left.
        split; [assumption|]. split; [assumption|]. intros Hpos.
        assert (result_in_budget o') as Hin.
        { apply Hb; [lia|]. intros x Hx. discriminate Hx. }
        specialize (Hin tr Hres). rewrite Hm in Hin. exact Hin.
      * exfalso. now apply Hd.
    + destruct Hr as [Hr | Hr]; [discriminate|].
      assert ((current_step o' >=? max_steps o') = true) as ->.
      { apply Z.geb_le. lia. }
      eexists _, _. split; [reflexivity|]. split; [exact Hm|].
      right. right. simpl. split; [reflexivity|]. split; [lia|]. split; lia.
Qed.

(** C1, amended: under a step budget that is not negative, [execute_task]
    returns a [TaskResult] whose [steps_taken] lies between 0 and
    [max_steps] inclusive. *)
Theorem steps_taken_within_budget (task : string) (o : Orchestrator) :
  0 <= max_steps o ->
  exists tr o',
    execute_task W task o = Some (Ok tr, o')
    /\ 0 <= steps_taken tr <= max_steps o.
Proof.
  intros Hpos.
  destruct (execute_task_spec task o) as (tr & o' & Hrun & _ & Hcases).
  exists tr, o'. split; [exact Hrun|].
  destruct Hcases as [(_ & _ & Hb) | [(_ & Hs & H0 & Hle) | (-> & H0 & _ & Hle)]].
  - now apply Hb.
  - rewrite Hs. split; [exact H0 | now apply Hle].
  - simpl. split; [exact H0 | now apply Hle].
Qed.


End Loop.

Section Steps.

Variable W : World.

(** The statements before the loop append to the history they find. *)
Lemma begin_task_keeps_history (task : string) (o : Orchestrator) :
  message_history (context_manager (begin_task W task o))
  = deque_append (message_history (context_manager o))
      (S (length (heap (context_manager o)))).
Proof.
  unfold begin_task, set_context_manager, set_system_message,
    add_user_message, append_message, alloc.
  cbn [context_manager heap message_history]. rewrite length_app.
  cbn [length]. now rewrite Nat.add_1_r.
Qed.


Lemma main_loop_halts (fuel : nat) (task : string) (o : Orchestrator) :
  task_completed o = true -> main_loop W fuel task o = Some (Ok None, o).
Proof. intros Hc. destruct fuel; simpl; now rewrite Hc. Qed.


(** C10: [task_complete] records a [TaskResult] whose [success] is [True]
    when the argument is absent and whose [result] is the empty string when
    that argument is absent, stamped with the current step; it sets
    [task_completed], after which the loop runs no further pass and the
    recorded result is what [execute_task] returns. *)
Theorem task_complete_defaults (args : Args) (o : Orchestrator) :
  let recorded :=
    mkTaskResult (args_get args "success" (VBool true))
                 (args_get args "result" (VStr ""))
                 (current_step o) None in
  let o' := set_task true (Some recorded) o in
  _call_tool W "task_complete" args o
    = (Ok [("success", VBool true); ("message", VStr "Задача завершена")], o')
  /\ task_completed o' = true
  /\ (args !! "success" = None -> success recorded = VBool true)
  /\ (args !! "result" = None -> result recorded = VStr "")
  /\ (forall fuel task, main_loop W fuel task o' = Some (Ok None, o'))
  /\ conclude o' = (Ok recorded, o').
Proof.
  cbn zeta. split; [reflexivity|]. split; [reflexivity|].
  split; [|split; [|split]].
  - intros Hnone. unfold args_get. simpl. now rewrite Hnone.
  - intros Hnone. unfold args_get. simpl. now rewrite Hnone.
  - intros fuel task. now apply main_loop_halts.
  - reflexivity.
Qed.

End Steps.

(** ** Appending to the history *)

Lemma append_message_last (m : Message) (cm : ContextManager) :
  1 <= maxlen (message_history cm) ->
  last (view (append_message m cm) (items (message_history (append_message m cm))))
  = Some m.
Proof.
  intros Hmax. unfold append_message, alloc, deque_append, view.
  cbn [heap message_history items].
  rewrite drop_app_le by (rewrite length_app; cbn [length]; lia).
  rewrite fmap_app. cbn [fmap list_fmap]. rewrite last_snoc.
  now rewrite list_lookup_total_middle.
Qed.

Lemma append_message_dropped (m : Message) (cm : ContextManager) :
  maxlen (message_history cm) <= 0 ->
  items (message_history (append_message m cm)) = [].
Proof.
  intros Hmax. unfold append_message, alloc, deque_append.
  cbn [message_history items].
  replace (Z.to_nat (maxlen (message_history cm))) with 0%nat by lia.
  rewrite Nat.sub_0_r. apply drop_all.
Qed.

(** ** Dispatch and the security gate *)

Section Dispatch.

Variable W : World.

Lemma call_tool_never_raises (tool_name : string) (args : Args) :
  never_raises (_call_tool W tool_name args).
Proof.
  unfold _call_tool. apply never_raises_try_except.
  intros e. apply never_raises_ret.
Qed.

Lemma unknown_tool_eqb (tool_name : string) :
  ~ In tool_name (map fst BROWSER_TOOLS) ->
  forall known, In known (map fst BROWSER_TOOLS) ->
                String.eqb tool_name known = false.
Proof.
  intros Hout known Hin. apply String.eqb_neq. intros ->. now apply Hout.
Qed.

Lemma call_tool_unknown (tool_name : string) (args : Args) (o : Orchestrator) :
  ~ In tool_name (map fst BROWSER_TOOLS) ->
  _call_tool W tool_name args o
  = (Ok (failure ("Неизвестный инструмент: " +:+ tool_name)), o).
Proof.
  intros Hout. pose proof (unknown_tool_eqb tool_name Hout) as Hne.
  unfold _call_tool, try_except.
  rewrite !Hne by (simpl; tauto). reflexivity.
Qed.

Lemma is_destructive_other (lower : string -> string) (sa : SecurityAgent)
    (tool_name : string) (args : Args) :
  String.eqb tool_name "click" = false ->
  String.eqb tool_name "type_text" = false ->
  _is_destructive_action lower sa tool_name args = Ok (false, "").
Proof. intros Hc Ht. unfold _is_destructive_action. now rewrite Hc, Ht. Qed.

Lemma gate_passes_other (o : Orchestrator) (tool_name : string) (args : Args) :
  String.eqb tool_name "click" = false ->
  String.eqb tool_name "type_text" = false ->
  gate_passes W o tool_name args.
Proof.
  intros Hc Ht. destruct (enabled (security_agent o)) eqn:He; [|now left].
  right. exists (mkVerdict true "Действие безопасно" false).
  split; [|reflexivity].
  unfold check_action, bind, gets, lift, ret. rewrite He. simpl.
  now rewrite is_destructive_other.
Qed.

(** Past the gate, the result of the dispatch becomes a tool-result
    message. *)
Lemma execute_tool_call_passed (tool_name : string) (args : Args)
    (o o' : Orchestrator) (res : Dict) :
  gate_passes W o tool_name args ->
  _call_tool W tool_name args o = (Ok res, o') ->
  _execute_tool_call W (mkToolCall tool_name args) o
  = (Ok tt, set_context_manager
              (add_tool_result tool_name (json_dumps W res)) o').
Proof.
  intros Hgate Hcall.
  unfold _execute_tool_call, bind at 1, gets at 1.
  cbn [function_name function_arguments].
  destruct Hgate as [Hoff | (v & Hcheck & Hsafe)].
  - rewrite Hoff. unfold bind, record_tool_result, modify.
    now rewrite Hcall.
  - destruct (enabled (security_agent o)).
    + unfold bind at 1. rewrite Hcheck, Hsafe. cbn [negb].
      unfold bind, record_tool_result, modify. now rewrite Hcall.
    + unfold bind, record_tool_result, modify. now rewrite Hcall.
Qed.

Lemma call_tool_missing (tool_name key : string) (args : Args) (o : Orchestrator) :
  first_missing tool_name args = Some key ->
  _call_tool W tool_name args o = (Ok (failure ("'" +:+ key +:+ "'")), o).
Proof.
  unfold first_missing, subscripted, _call_tool, try_except.
  repeat match goal with
         | |- context [String.eqb tool_name ?s] =>
             destruct (String.eqb_spec tool_name s) as [->|?]
         end;
    cbn [String.eqb Ascii.eqb Bool.eqb List.find]; intros Hfind;
    repeat match type of Hfind with
           | context [args !! ?k] =>
               let E := fresh "E" in
               destruct (args !! k) as [?|] eqn:E;
               [ rewrite bool_decide_eq_true_2 in Hfind by eauto
               | rewrite bool_decide_eq_false_2 in Hfind
                   by (intros [? ?]; discriminate) ];
               cbn [negb] in Hfind
           end;
    try discriminate Hfind;
    injection Hfind as <-;
    unfold bind, lift, args_subscript;
    repeat match goal with
           | E : args !! _ = _ |- _ => rewrite E; clear E
           end;
    reflexivity.
Qed.

(** C7, amended: [_call_tool] never raises.  For a name outside the action
    surface it returns [success=False] with the unknown-tool text, and
    [_execute_tool_call] appends that result as a tool-result message and
    returns normally, the completion flag untouched.  For a known action
    lacking an argument that the dispatcher reads by subscript it returns
    [success=False] with the quoted name of the first missing key, without
    touching the state, and past the security gate that result is appended
    in the same way. *)
Theorem dispatch_reports_failures :
  (forall tool_name args o,
      exists res o', _call_tool W tool_name args o = (Ok res, o'))
  /\ (forall tool_name args o,
        ~ In tool_name (map fst BROWSER_TOOLS) ->
        let res := failure ("Неизвестный инструмент: " +:+ tool_name) in
        _call_tool W tool_name args o = (Ok res, o)
        /\ _execute_tool_call W (mkToolCall tool_name args) o
           = (Ok tt, set_context_manager
                       (add_tool_result tool_name (json_dumps W res)) o))
  /\ (forall tool_name key args o,
        first_missing tool_name args = Some key ->
        let res := failure ("'" +:+ key +:+ "'") in
        _call_tool W tool_name args o = (Ok res, o)
        /\ (gate_passes W o tool_name args ->
            _execute_tool_call W (mkToolCall tool_name args) o
            = (Ok tt, set_context_manager
                        (add_tool_result tool_name (json_dumps W res)) o))).
Proof.
  split; [|split].
  - intros tool_name args o. apply call_tool_never_raises.
  - intros tool_name args o Hout. cbn zeta.
    pose proof (call_tool_unknown tool_name args o Hout) as Hcall.
    split; [exact Hcall|].
    apply execute_tool_call_passed; [|exact Hcall].
    apply gate_passes_other; apply (unknown_tool_eqb tool_name Hout);
      simpl; tauto.
  - intros tool_name key args o Hmiss. cbn zeta.
    pose proof (call_tool_missing tool_name key args o Hmiss) as Hcall.
    split; [exact Hcall|]. intros Hgate.
    now apply execute_tool_call_passed.
Qed.

(** A click whose selector or reason contains a configured pattern is
    what [_is_destructive_action] flags. *)
Lemma click_on_pattern_is_flagged (lower : string -> string)
    (sa : SecurityAgent) (args : Args)
    (selector reason_text pattern : string) :
  args_get args "selector" (VStr "") = VStr selector ->
  args_get args "reason" (VStr "") = VStr reason_text ->
  In pattern (destructive_patterns sa) ->
  str_contains (lower selector) pattern
  || str_contains (lower reason_text) pattern = true ->
  exists found,
    In found (destructive_patterns sa)
    /\ _is_destructive_action lower sa "click" args
       = Ok (true, "Обнаружен деструктивный паттерн: '" +:+ found +:+ "'").
Proof.
  intros Hsel Hreason Hin Hmatch.
  unfold _is_destructive_action. cbn [String.eqb Ascii.eqb Bool.eqb].
  rewrite Hsel, Hreason. cbn [py_lower].
  destruct (List.find _ (destructive_patterns sa)) as [found|] eqn:Hfind.
  - apply List.find_some in Hfind as [Hfound _]. now exists found.
  - pose proof (List.find_none _ _ Hfind pattern Hin) as Hno.
    cbn beta in Hno. congruence.
Qed.

Lemma destructive_request_is_flagged (lower : string -> string)
    (sa : SecurityAgent) (tool_call : ToolCall) :
  destructive_request lower sa tool_call ->
  exists why,
    _is_destructive_action lower sa (function_name tool_call)
      (function_arguments tool_call) = Ok (true, why).
Proof.
  intros [[-> (pattern & Hin & selector & reason_text & Hsel & Hreason & Hm)]
         | [-> (text & selector & Htext & Hsel & Hkey)]].
  - destruct (click_on_pattern_is_flagged lower sa _ selector reason_text
                pattern Hsel Hreason Hin Hm) as (found & _ & Hflag).
    eauto.
  - unfold _is_destructive_action. cbn [String.eqb Ascii.eqb Bool.eqb].
    rewrite Htext, Hsel. cbn [py_lower]. rewrite Hkey. eauto.
Qed.


End Dispatch.

(** ** Witnesses and counterexamples *)

Lemma compress_idempotent_witness :
  0 <= sliding_window_size crowded_manager
  /\ _compress_messages length_estimate
       (snd (_compress_messages length_estimate crowded_manager [1; 2]%nat))
       (fst (_compress_messages length_estimate crowded_manager [1; 2]%nat))
     = _compress_messages length_estimate crowded_manager [1; 2]%nat.
Proof.
  assert (0 <= sliding_window_size crowded_manager) as Hw
    by (vm_compute; discriminate).
  split; [exact Hw|].
  exact (proj1 (compress_idempotent length_estimate crowded_manager
                  [1; 2]%nat Hw)).
Defined.

Lemma compress_keeps_tool_results_witness :
  startswith (content (heap crowded_manager !!! 2%nat)) "TOOL RESULT" = true
  /\ heap (snd (_compress_messages length_estimate crowded_manager [1; 2]%nat))
       !!! 2%nat
     = heap crowded_manager !!! 2%nat.
Proof.
  assert (startswith (content (heap crowded_manager !!! 2%nat)) "TOOL RESULT"
          = true) as Htool by (vm_compute; reflexivity).
  split; [exact Htool|].
  exact (proj1 (proj2 (compress_keeps_tool_results length_estimate
                         crowded_manager [1; 2]%nat 2%nat)) Htool).
Defined.

Lemma get_messages_mutates_history_witness :
  truncatable (heap crowded_manager !!! 1%nat) = true
  /\ content (heap (snd (get_messages length_estimate true crowded_manager))
                !!! 1%nat)
     <> content (heap crowded_manager !!! 1%nat).
Proof.
  assert (truncatable (heap crowded_manager !!! 1%nat) = true) as Ht
    by (vm_compute; reflexivity).
  split; [exact Ht|].
  refine (proj1 (proj2 (proj2
            (get_messages_mutates_history length_estimate crowded_manager
               1%nat _ _ Ht _)))).
  - vm_compute. constructor.
  - vm_compute. constructor.
  - vm_compute. reflexivity.
Defined.

Lemma steps_taken_within_budget_witness :
  0 <= max_steps (fresh_orchestrator 2)
  /\ exists tr o',
       execute_task idle_world "report the title" (fresh_orchestrator 2)
       = Some (Ok tr, o')
       /\ 0 <= steps_taken tr <= max_steps (fresh_orchestrator 2).
Proof.
  assert (0 <= max_steps (fresh_orchestrator 2)) as Hpos
    by (vm_compute; discriminate).
  split; [exact Hpos|].
  exact (steps_taken_within_budget idle_world "report the title"
           (fresh_orchestrator 2) Hpos).
Defined.

(** With a negative budget the loop is skipped and the result reports
    zero steps, which is more than the budget. *)
Lemma steps_taken_negative_budget :
  ~ (forall (W : World) (task : string) (o o' : Orchestrator) (tr : TaskResult),
        execute_task W task o = Some (Ok tr, o') ->
        0 <= steps_taken tr <= max_steps o).
Proof.
  intros Hclaim.
  destruct (execute_task idle_world "report the title" (fresh_orchestrator (-1)))
    as [[[tr|e] o']|] eqn:Hrun; try (vm_compute in Hrun; discriminate Hrun).
  specialize (Hclaim _ _ _ _ _ Hrun).
  vm_compute in Hrun. injection Hrun as <- _.
  vm_compute in Hclaim. destruct Hclaim as [_ Hle]. now apply Hle.
Qed.


(** C3: two tasks run in turn on one orchestrator, as the terminal
    interface does.  [execute_task] never calls [clear_history], so the
    first message list sent to the model for the second task still holds
    the user and planning messages of the first task. *)
Lemma second_task_sees_first_task :
  let o1 := final_state (execute_task idle_world "first task" (fresh_orchestrator 1))
              (fresh_orchestrator 1) in
  let o2 := final_state (execute_task idle_world "second task" o1) o1 in
  llm_inputs o1
    = [[mkMessage "system" "SYSTEM"; mkMessage "user" "TASK: first task";
        mkMessage "user" "PLAN: first task"]]
  /\ llm_inputs o2
     = llm_inputs o1
       ++ [[mkMessage "system" "SYSTEM"; mkMessage "user" "TASK: first task";
            mkMessage "user" "PLAN: first task";
            mkMessage "user" "TASK: second task";
            mkMessage "user" "PLAN: second task"]].
Proof. vm_compute. split; reflexivity. Qed.



(** [task_complete] is a known action, [result] is required by its schema,
    and a request without it succeeds and completes the task. *)
Lemma dispatch_missing_required_argument :
  ~ (forall (W : World) (tool_name key : string) (required : list string)
            (args : Args) (o : Orchestrator),
        In (tool_name, required) BROWSER_TOOLS -> In key required ->
        args !! key = None ->
        exists res o',
          _call_tool W tool_name args o = (Ok res, o')
          /\ dict_get res "success" = Some (VBool false)
          /\ task_completed o' = task_completed o).
Proof.
  intros Hclaim.
  destruct (Hclaim idle_world "task_complete" "result" ["result"; "success"]
              ∅ (fresh_orchestrator 2))
    as (res & o' & Hcall & Hfail & _).
  - simpl. tauto.
  - simpl. tauto.
  - reflexivity.
  - vm_compute in Hcall. injection Hcall as <- _. discriminate Hfail.
Qed.

Lemma dispatch_reports_failures_witness :
  ~ In "submit_form" (map fst BROWSER_TOOLS)
  /\ first_missing "navigate" ∅ = Some "url"
  /\ gate_passes idle_world (fresh_orchestrator 2) "navigate" ∅
  /\ _call_tool idle_world "submit_form" ∅ (fresh_orchestrator 2)
     = (Ok (failure "Неизвестный инструмент: submit_form"), fresh_orchestrator 2)
  /\ _execute_tool_call idle_world (mkToolCall "navigate" ∅) (fresh_orchestrator 2)
     = (Ok tt, set_context_manager
                 (add_tool_result "navigate"
                    (json_dumps idle_world (failure "'url'")))
                 (fresh_orchestrator 2)).
Proof.
  assert (~ In "submit_form" (map fst BROWSER_TOOLS)) as Hout.
  { simpl. intros H. repeat (destruct H as [H|H]; [discriminate H|]). exact H. }
  assert (first_missing "navigate" ∅ = Some "url") as Hmiss by reflexivity.
  assert (gate_passes idle_world (fresh_orchestrator 2) "navigate" ∅) as Hgate.
  { right. eexists. split; reflexivity. }
  destruct (dispatch_reports_failures idle_world) as (_ & Hunknown & Hmissing).
  split; [exact Hout|]. split; [exact Hmiss|]. split; [exact Hgate|]. split.
  - exact (proj1 (Hunknown "submit_form" ∅ (fresh_orchestrator 2) Hout)).
  - exact (proj2 (Hmissing "navigate" "url" ∅ (fresh_orchestrator 2) Hmiss) Hgate).
Defined.


Lemma task_complete_defaults_witness :
  (∅ : Args) !! "success" = None
  /\ (∅ : Args) !! "result" = None
  /\ task_result (snd (_call_tool idle_world "task_complete" ∅
                         (fresh_orchestrator 2)))
     = Some (mkTaskResult (VBool true) (VStr "") 0 None).
Proof.
  destruct (task_complete_defaults idle_world ∅ (fresh_orchestrator 2))
    as (Hcall & _ & Hsuccess & Hresult & _).
  split; [reflexivity|]. split; [reflexivity|].
  rewrite Hcall. cbn [snd set_task task_result].
  specialize (Hsuccess eq_refl). specialize (Hresult eq_refl).
  cbn [success result] in Hsuccess, Hresult. rewrite Hsuccess, Hresult.
  reflexivity.
Defined.

(** * Further properties *)

(** ** The bounded history *)

Lemma deque_append_length (d : deque) (x : ref) :
  0 <= maxlen d ->
  Z.of_nat (length (items (deque_append d x))) <= maxlen d.
Proof.
  intros Hm. unfold deque_append. cbn [items].
  rewrite length_drop, length_app. cbn [length]. lia.
Qed.

Lemma deque_append_Forall (P : ref -> Prop) (d : deque) (x : ref) :
  Forall P (items d) -> P x -> Forall P (items (deque_append d x)).
Proof.
  intros Hd Hx. unfold deque_append. cbn [items].
  apply Forall_drop, Forall_app. split; [exact Hd | now constructor].
Qed.

Lemma truncate_all_length (l : list ref) (h : list Message) :
  length (foldl truncate_step h l) = length h.
Proof.
  revert h. induction l as [|r l IH]; intros h; simpl; [reflexivity|].
  rewrite IH, truncate_step_eq.
  destruct (truncatable (h !!! r)); [apply length_insert | reflexivity].
Qed.

Lemma set_system_message_wf (c : string) (cm : ContextManager) :
  wf_manager cm -> wf_manager (set_system_message c cm).
Proof.
  intros (Hlen & Hsys & Hrole & Hhist).
  unfold wf_manager, set_system_message, alloc.
  cbn [heap message_history system_message].
  rewrite length_app. cbn [length].
  split; [exact Hlen|]. split; [lia|]. split.
  - now rewrite list_lookup_total_middle.
  - eapply Forall_impl; [exact Hhist|]. intros r [Hr Hn].
    split; [lia|]. now rewrite lookup_total_app_l.
Qed.

Lemma append_message_wf (m : Message) (cm : ContextManager) :
  is_system m = false -> 0 <= maxlen (message_history cm) ->
  wf_manager cm -> wf_manager (append_message m cm).
Proof.
  intros Hm Hmax (Hlen & Hsys & Hrole & Hhist).
  unfold wf_manager, append_message, alloc.
  cbn [heap message_history system_message].
  rewrite length_app. cbn [length].
  split; [exact (deque_append_length _ _ Hmax)|]. split; [lia|]. split.
  - now rewrite lookup_total_app_l.
  - apply deque_append_Forall.
    + eapply Forall_impl; [exact Hhist|]. intros r [Hr Hn].
      split; [lia|]. now rewrite lookup_total_app_l.
    + split; [lia|]. now rewrite list_lookup_total_middle.
Qed.

Section Reachable.

Variable count_tokens : string -> Z.

Lemma get_messages_heap (cm : ContextManager) :
  length (heap (snd (get_messages count_tokens true cm))) = length (heap cm)
  /\ forall r, is_system (heap (snd (get_messages count_tokens true cm)) !!! r)
               = is_system (heap cm !!! r).
Proof.
  destruct (get_messages_cases count_tokens cm) as [[-> _] | ->];
    [split; reflexivity|].
  match goal with
  | |- context [_compress_messages count_tokens cm ?l] =>
      destruct (compress_heap count_tokens cm l) as [-> | ->]
  end; [split; reflexivity|].
  split; [apply truncate_all_length | intros r; apply truncate_all_is_system].
Qed.

Lemma get_messages_wf (cm : ContextManager) :
  wf_manager cm -> wf_manager (snd (get_messages count_tokens true cm)).
Proof.
  intros (Hlen & Hsys & Hrole & Hhist).
  destruct (get_messages_frame count_tokens cm) as (_ & _ & Hm & Hs).
  destruct (get_messages_heap cm) as [Hl Hr].
  unfold wf_manager. rewrite Hm, Hs, Hl, Hr.
  repeat (split; [assumption|]).
  eapply Forall_impl; [exact Hhist|]. intros r [Hlt Hn].
  split; [exact Hlt|]. now rewrite Hr.
Qed.

Lemma apply_op_config (cm : ContextManager) (op : ContextOp) :
  max_tokens (apply_op count_tokens cm op) = max_tokens cm
  /\ sliding_window_size (apply_op count_tokens cm op) = sliding_window_size cm
  /\ maxlen (message_history (apply_op count_tokens cm op))
     = maxlen (message_history cm).
Proof.
  destruct op; try (repeat split; reflexivity).
  cbn [apply_op].
  destruct (get_messages_frame count_tokens cm) as (-> & -> & -> & _).
  repeat split; reflexivity.
Qed.

Lemma apply_op_wf (cm : ContextManager) (op : ContextOp) :
  0 <= maxlen (message_history cm) ->
  wf_manager cm -> wf_manager (apply_op count_tokens cm op).
Proof.
  intros Hmax Hwf. destruct op; cbn [apply_op].
  - now apply set_system_message_wf.
  - now apply append_message_wf.
  - now apply append_message_wf.
  - now apply append_message_wf.
  - destruct Hwf as (Hlen & Hsys & Hrole & Hhist).
    unfold wf_manager, clear_history, deque_clear.
    cbn [heap message_history system_message items maxlen length].
    split; [lia|]. split; [exact Hsys|]. split; [exact Hrole | constructor].
  - now apply get_messages_wf.
Qed.

(** X1: whatever the public methods are called with and in whatever
    order, a manager built by [__init__] with window [w] never holds more
    than [2 * w] messages, every address it holds is that of a stored
    object, the system slot holds a system message and the deque none, and
    the budget and the window are never changed. *)
Theorem manager_stays_well_formed (max_tok w : Z) (cm0 : ContextManager)
    (ops : list ContextOp) :
  ContextManager_init max_tok w = Ok cm0 ->
  let cm := run_ops count_tokens ops cm0 in
  wf_manager cm
  /\ Z.of_nat (length (items (message_history cm))) <= 2 * w
  /\ max_tokens cm = max_tok
  /\ sliding_window_size cm = w.
Proof.
  intros Hinit. cbn zeta.
  assert (wf_manager cm0 /\ maxlen (message_history cm0) = 2 * w
          /\ max_tokens cm0 = max_tok /\ sliding_window_size cm0 = w
          /\ 0 <= w) as Hstart.
  { unfold ContextManager_init in Hinit.
    destruct (w * 2 <? 0) eqn:Hneg; [discriminate|].
    apply Z.ltb_ge in Hneg. injection Hinit as <-.
    repeat split; cbn; try lia. constructor. }
  clear Hinit. revert cm0 Hstart.
  induction ops as [|op ops IH]; intros cm0 (Hwf & Hmax & Hmt & Hw & Hpos).
  - cbn. split; [exact Hwf|]. destruct Hwf as (Hlen & _).
    rewrite Hmax in Hlen. split; [exact Hlen|]. split; assumption.
  - cbn. apply IH.
    destruct (apply_op_config cm0 op) as (-> & -> & ->).
    split; [apply apply_op_wf; [lia | exact Hwf]|].
    split; [exact Hmax|]. split; [exact Hmt|]. split; assumption.
Qed.

End Reachable.

(** ** What [get_messages] returns *)

Lemma slice_from_suffix {A} (z : Z) (l : list A) : slice_from z l `suffix_of` l.
Proof. unfold slice_from. destruct (z <? 0); apply suffix_drop. Qed.

Lemma window_of_history (h : list Message) (w : Z) (front rest : list ref) :
  Forall (fun r => is_system (h !!! r) = true) front ->
  (length front <= 1)%nat ->
  Forall (fun r => is_system (h !!! r) = false) rest ->
  window h w (front ++ rest) = front ++ slice_from (- w) rest.
Proof.
  intros Hfront Hone Hrest. unfold window, split_messages.
  destruct front as [|s [|? ?]]; cbn [length] in Hone; try lia.
  - cbn [app foldl]. now rewrite split_step_others.
  - apply Forall_cons in Hfront as [Hs _].
    cbn [app foldl]. unfold split_step at 2 4. rewrite Hs. cbn [fst snd].
    now rewrite split_step_others.
Qed.

Section Returned.

Variable count_tokens : string -> Z.

(** X2: on a well-formed manager [get_messages] returns the system message
    first, when its content is not empty, followed by a run of the most
    recent messages of the history in their order; nothing else, no second
    system message and no dangling address; unless the token budget is
    exceeded the run is the whole history and the store is left as it
    was. *)
Theorem get_messages_shape (cm : ContextManager) :
  wf_manager cm ->
  let front :=
    if negb (String.eqb (content (heap cm !!! system_message cm)) "")
    then [system_message cm] else [] in
  exists rest,
    fst (get_messages count_tokens true cm) = front ++ rest
    /\ rest `suffix_of` items (message_history cm)
    /\ Forall (fun r => (r < length (heap cm))%nat
                        /\ is_system (heap cm !!! r) = false) rest
    /\ ((rest = items (message_history cm)
         /\ snd (get_messages count_tokens true cm) = cm)
        \/ _count_messages_tokens count_tokens (heap cm)
             (front ++ items (message_history cm)) > max_tokens cm).
Proof.
  intros (Hlen & Hsys & Hrole & Hhist). cbn zeta.
  set (front := if negb (String.eqb (content (heap cm !!! system_message cm)) "")
                then [system_message cm] else []).
  assert (Forall (fun r => is_system (heap cm !!! r) = true) front
          /\ (length front <= 1)%nat) as [Hfront Hone].
  { unfold front. destruct (negb _); cbn; split; try lia; repeat constructor.
    exact Hrole. }
  assert (Forall (fun r => is_system (heap cm !!! r) = false)
                 (items (message_history cm))) as Hplain.
  { eapply Forall_impl; [exact Hhist|]. now intros r [_ ?]. }
  unfold get_messages. cbn [andb]. fold front.
  destruct (_count_messages_tokens count_tokens (heap cm)
              (front ++ items (message_history cm)) >? max_tokens cm)
    eqn:Hover.
  - rewrite compress_eq. cbn zeta. cbn [fst].
    rewrite window_of_history by assumption.
    eexists. split; [reflexivity|]. split; [apply slice_from_suffix|].
    split; [now apply slice_from_Forall|].
    right. apply Z.gtb_lt in Hover. lia.
  - exists (items (message_history cm)).
    split; [reflexivity|]. split; [reflexivity|]. split; [exact Hhist|].
    left. split; reflexivity.
Qed.

Lemma split_messages_filter (h : list Message) (messages : list ref) :
  split_messages h messages
  = (last (List.filter (fun r => is_system (h !!! r)) messages),
     List.filter (fun r => negb (is_system (h !!! r))) messages).
Proof.
  unfold split_messages.
  induction messages as [|r messages IH] using rev_ind; [reflexivity|].
  rewrite foldl_snoc, IH, !List.filter_app. cbn [List.filter].
  unfold split_step. cbn [fst snd].
  destruct (is_system (h !!! r)); cbn [negb].
  - now rewrite last_snoc, app_nil_r.
  - now rewrite app_nil_r.
Qed.

(** X4: for a non-negative window [w], the list [_compress_messages]
    returns is the last system message of its input, whenever the input has
    one, followed by the last [w] of the other messages of the input in
    their order, and nothing else; with a window of 0 the slice
    [other_msgs[-0:]] keeps every other message. *)
Theorem compress_window (cm : ContextManager) (messages : list ref)
    (Hw : 0 <= sliding_window_size cm) :
  let w := sliding_window_size cm in
  let out := fst (_compress_messages count_tokens cm messages) in
  let systems :=
    List.filter (fun r => is_system (heap cm !!! r)) messages in
  let others :=
    List.filter (fun r => negb (is_system (heap cm !!! r))) messages in
  exists recent,
    out = match last systems with Some s => [s] | None => [] end ++ recent
    /\ recent `suffix_of` others
    /\ Z.of_nat (length recent)
       = if w =? 0 then Z.of_nat (length others)
         else Z.min w (Z.of_nat (length others)).
Proof.
  cbn zeta. rewrite compress_eq. cbn zeta. cbn [fst]. unfold window.
  rewrite split_messages_filter. cbn [fst snd].
  eexists. split; [reflexivity|]. split; [apply slice_from_suffix|].
  unfold slice_from.
  destruct (sliding_window_size cm =? 0) eqn:Hzero.
  - apply Z.eqb_eq in Hzero. rewrite Hzero. cbn. reflexivity.
  - apply Z.eqb_neq in Hzero.
    destruct (- sliding_window_size cm <? 0) eqn:Hneg;
      [|apply Z.ltb_ge in Hneg; lia].
    rewrite length_drop. lia.
Qed.

Lemma compress_content (cm : ContextManager) (messages : list ref)
    (r : ref) :
  let h' := heap (snd (_compress_messages count_tokens cm messages)) in
  role (h' !!! r) = role (heap cm !!! r)
  /\ len (content (h' !!! r)) <= len (content (heap cm !!! r)).
Proof.
  cbn zeta.
  destruct (compress_heap count_tokens cm messages) as [-> | ->];
    [split; [reflexivity | lia]|].
  split; [apply truncate_all_role|].
  destruct (truncate_all_lookup
              (fst (_compress_messages count_tokens cm messages))
              (heap cm) r) as [-> | [Ht ->]]; [lia|].
  cbn [content]. unfold truncatable in Ht.
  apply andb_true_iff in Ht as [_ Hlen]. apply Z.gtb_lt in Hlen.
  rewrite len_truncated by lia. lia.
Qed.

(** X5: a pass of [_compress_messages] allocates nothing, changes no role
    and lengthens no message, whether it truncates or not. *)
Theorem compress_shrinks (cm : ContextManager) (messages : list ref) :
  let h' := heap (snd (_compress_messages count_tokens cm messages)) in
  length h' = length (heap cm)
  /\ forall r : ref,
       role (h' !!! r) = role (heap cm !!! r)
       /\ len (content (h' !!! r)) <= len (content (heap cm !!! r)).
Proof.
  cbn zeta. split; [|intros r; apply compress_content].
  destruct (compress_heap count_tokens cm messages) as [-> | ->];
    [reflexivity | apply truncate_all_length].
Qed.

(** X6: when the window it kept is still over the token budget,
    [_compress_messages] leaves every message it returns a system message,
    a tool result or at most 5000 characters long. *)
Theorem compress_truncates (cm : ContextManager) (messages : list ref)
    (r : ref) :
  _count_messages_tokens count_tokens (heap cm)
    (fst (_compress_messages count_tokens cm messages)) > max_tokens cm ->
  r ∈ fst (_compress_messages count_tokens cm messages) ->
  let h' := heap (snd (_compress_messages count_tokens cm messages)) in
  is_system (h' !!! r) = true
  \/ startswith (content (h' !!! r)) "TOOL RESULT" = true
  \/ len (content (h' !!! r)) <= 5000.
Proof.
  intros Hover Hin. cbn zeta. rewrite compress_eq in Hin, Hover |- *.
  cbn zeta in *. cbn [fst snd] in *.
  apply Z.gt_lt, Z.gtb_lt in Hover. rewrite Hover. cbn [heap set_heap].
  pose proof (truncate_all_member _ (heap cm) r Hin) as Hdone.
  unfold truncatable in Hdone.
  apply andb_false_iff in Hdone as [Hdone | Hlen].
  - apply andb_false_iff in Hdone as [Hs | Ht].
    + left. now apply negb_false_iff in Hs.
    + right. left. now apply negb_false_iff in Ht.
  - right. right. rewrite Z.gtb_ltb in Hlen. apply Z.ltb_ge in Hlen.
    exact Hlen.
Qed.

End Returned.

(** ** Appending and reading back *)

(** X3: a message appended through [add_user_message],
    [add_assistant_message] or [add_tool_result] is the last message of the
    history, with the role and the text written, as soon as the deque has
    room for one entry; a deque of length 0, which a window of 0 gives,
    keeps nothing of what is appended. *)
Theorem append_then_read (cm : ContextManager) (c tool_name res : string) :
  let read cm' := last (view cm' (items (message_history cm'))) in
  let kept m := if 1 <=? maxlen (message_history cm) then Some m else None in
  read (add_user_message c cm) = kept (mkMessage "user" c)
  /\ read (add_assistant_message c cm) = kept (mkMessage "assistant" c)
  /\ read (add_tool_result tool_name res cm)
     = kept (mkMessage "user"
               ("TOOL RESULT [" +:+ tool_name +:+ "]: " +:+ res)).
Proof.
  cbn zeta. destruct (1 <=? maxlen (message_history cm)) eqn:Hmax.
  - apply Z.leb_le in Hmax. repeat split; now apply append_message_last.
  - apply Z.leb_gt in Hmax.
    unfold add_user_message, add_assistant_message, add_tool_result.
    rewrite !append_message_dropped by lia. repeat split; reflexivity.
Qed.

(** ** The token estimate *)

Lemma count_messages_mono (f g : ref -> Z) (l : list ref) (a b : Z) :
  (forall r, f r <= g r) -> a <= b ->
  foldl (fun total msg => total + f msg) a l
  <= foldl (fun total msg => total + g msg) b l.
Proof.
  intros Hfg. revert a b. induction l as [|r l IH]; intros a b Hab; cbn.
  - exact Hab.
  - apply IH. specialize (Hfg r). lia.
Qed.

(** X7: when the tokenizer is not available [count_tokens] falls back on
    a quarter of the length, rounded down, and under that estimate a pass
    of [_compress_messages] never raises the estimated size of the list it
    returns. *)
Theorem count_tokens_fallback (encode : string -> Result (list Z))
    (cm : ContextManager) (messages : list ref) :
  (forall text, exists e, encode text = Raise e) ->
  let count := LLMClient_count_tokens encode in
  let out := fst (_compress_messages count cm messages) in
  (forall text, count text = len text `div` 4 /\ 0 <= count text)
  /\ _count_messages_tokens count
       (heap (snd (_compress_messages count cm messages))) out
     <= _count_messages_tokens count (heap cm) out.
Proof.
  intros Hfail. cbn zeta.
  assert (forall text, LLMClient_count_tokens encode text = len text `div` 4)
    as Hcount.
  { intros text. unfold LLMClient_count_tokens.
    destruct (Hfail text) as [e He]. now rewrite He. }
  split.
  - intros text. rewrite Hcount. split; [reflexivity|].
    apply Z.div_pos; unfold len; lia.
  - unfold _count_messages_tokens.
    apply count_messages_mono; [|lia]. intros r. rewrite !Hcount.
    apply Z.div_le_mono; [lia|].
    apply (compress_content (LLMClient_count_tokens encode) cm messages).
Qed.

(** ** The classifier of the security agent *)

Lemma py_lower_Ok (lower : string -> string) (v : value) (s : string) :
  py_lower lower v = Ok s -> exists t, v = VStr t /\ s = lower t.
Proof. destruct v; try discriminate. intros [= <-]. eauto. Qed.

Lemma flagged_inv (lower : string -> string) (sa : SecurityAgent)
    (action_name : string) (parameters : Args) (why : string) :
  _is_destructive_action lower sa action_name parameters = Ok (true, why) ->
  (action_name = "click"
   /\ exists pattern, click_matches lower sa parameters pattern)
  \/ (action_name = "type_text" /\ payment_field lower parameters).
Proof.
  intros Hflag. unfold _is_destructive_action in Hflag.
  destruct (String.eqb_spec action_name "click") as [-> | Hclick].
  - left. split; [reflexivity|].
    cbn [String.eqb Ascii.eqb Bool.eqb] in Hflag.
    destruct (py_lower lower (args_get parameters "selector" (VStr "")))
      as [selector|] eqn:Hsel; [|discriminate].
    destruct (py_lower lower (args_get parameters "reason" (VStr "")))
      as [reason_text|] eqn:Hreason; [|discriminate].
    destruct (List.find _ (destructive_patterns sa)) as [pattern|] eqn:Hfind;
      [|discriminate].
    apply List.find_some in Hfind as [Hin Hmatch].
    apply py_lower_Ok in Hsel as (s & Hs & ->).
    apply py_lower_Ok in Hreason as (t & Ht & ->).
    exists pattern. split; [exact Hin|]. exists s, t. auto.
  - destruct (String.eqb_spec action_name "type_text") as [-> | Htype];
      [|discriminate].
    right. split; [reflexivity|].
    destruct (py_lower lower (args_get parameters "text" (VStr "")))
      as [text|] eqn:Htext; [|discriminate].
    destruct (py_lower lower (args_get parameters "selector" (VStr "")))
      as [selector|] eqn:Hsel; [|discriminate].
    destruct (existsb _ payment_keywords) eqn:Hkey; [|discriminate].
    apply py_lower_Ok in Htext as (t & Ht & _).
    apply py_lower_Ok in Hsel as (s & Hs & ->).
    exists t, s. auto.
Qed.

(** X8: whatever [str.lower] does to the characters of a text,
    [_is_destructive_action] flags a request exactly when it is a click
    whose selector or reason, as [lower()] returns them, contains a
    configured pattern, or a [type_text] into a field whose selector, as
    [lower()] returns it, contains a payment keyword.  No other action is
    ever flagged, whatever its arguments, and the configured patterns are
    consulted for clicks only. *)
Theorem flagged_iff (lower : string -> string) (sa : SecurityAgent)
    (action_name : string) (parameters : Args) :
  (exists why,
      _is_destructive_action lower sa action_name parameters
      = Ok (true, why))
  <-> (action_name = "click"
       /\ exists pattern, click_matches lower sa parameters pattern)
      \/ (action_name = "type_text" /\ payment_field lower parameters).
Proof.
  split.
  - intros [why Hflag]. exact (flagged_inv _ _ _ _ _ Hflag).
  - intros Hreq.
    exact (destructive_request_is_flagged lower sa
             (mkToolCall action_name parameters) Hreq).
Qed.

Lemma lower_ascii_not_upper (c : ascii) : is_upper (lower_ascii c) = false.
Proof. destruct c as [[] [] [] [] [] [] [] []]; reflexivity. Qed.

Lemma ascii_lower_no_upper (s : string) : has_upper (ascii_lower s) = false.
Proof.
  induction s as [|c s IH]; cbn; [reflexivity|].
  now rewrite lower_ascii_not_upper, IH.
Qed.

Lemma prefix_has_upper (p s : string) :
  String.prefix p s = true -> has_upper p = true -> has_upper s = true.
Proof.
  revert s. induction p as [|c p IH]; intros s Hpre Hup; [discriminate|].
  destruct s as [|d s]; [discriminate|]. cbn in Hpre, Hup |- *.
  destruct (ascii_dec c d) as [-> | Hne]; [|discriminate].
  apply orb_true_iff in Hup as [Hc | Hp].
  - now rewrite Hc.
  - rewrite (IH s Hpre Hp). apply orb_true_r.
Qed.

Lemma str_contains_has_upper (s p : string) :
  str_contains s p = true -> has_upper p = true -> has_upper s = true.
Proof.
  intros Hin Hup. induction s as [|c s IH]; cbn in Hin.
  - apply orb_true_iff in Hin as [Hpre | Hfalse]; [|discriminate].
    now apply (prefix_has_upper p).
  - apply orb_true_iff in Hin as [Hpre | Hrest].
    + now apply (prefix_has_upper p).
    + cbn. rewrite (IH Hrest). apply orb_true_r.
Qed.

Lemma upper_pattern_not_found (pattern text : string) :
  has_upper pattern = true -> str_contains (ascii_lower text) pattern = false.
Proof.
  intros Hup.
  destruct (str_contains (ascii_lower text) pattern) eqn:Hin; [|reflexivity].
  pose proof (str_contains_has_upper _ _ Hin Hup) as Habs.
  now rewrite ascii_lower_no_upper in Habs.
Qed.

(** X9: the texts are lower-cased before the search, the patterns are
    not: a configured pattern holding a capital letter is found in no
    selector and no reason, so an agent whose patterns all hold one never
    flags a click. *)
Theorem capital_pattern_never_matches (W : World) (sa : SecurityAgent)
    (parameters : Args) (why : string) :
  Forall (fun pattern => has_upper pattern = true) (destructive_patterns sa) ->
  _is_destructive_action (py_str_lower W) sa "click" parameters
  <> Ok (true, why).
Proof.
  intros Hall Hflag. unfold py_str_lower in Hflag.
  apply flagged_inv in Hflag
    as [[_ [pattern (Hin & s & t & _ & _ & Hm)]] | [Habs _]]; [|discriminate].
  rewrite Forall_forall in Hall.
  assert (has_upper pattern = true) as Hup
    by (apply Hall; now apply list_elem_of_In).
  cbn beta in Hm. now rewrite !upper_pattern_not_found in Hm.
Qed.

Lemma find_app_Some {A} (f : A -> bool) (l k : list A) (x : A) :
  List.find f l = Some x -> List.find f (l ++ k) = Some x.
Proof.
  induction l as [|a l IH]; cbn; [discriminate|].
  destruct (f a); [trivial | exact IH].
Qed.

Lemma existsb_eqb_In (pattern : string) (l : list string) :
  existsb (String.eqb pattern) l = true <-> In pattern l.
Proof.
  rewrite existsb_exists. split.
  - intros (x & Hin & Heq). apply String.eqb_eq in Heq. now subst.
  - intros Hin. exists pattern. split; [exact Hin | apply String.eqb_refl].
Qed.

(** X10: [add_destructive_pattern] leaves the pattern configured, once:
    adding it again changes nothing.  It touches neither the switch nor
    the callback and keeps the older patterns in their order. *)
Theorem add_destructive_pattern_spec (pattern : string) (sa : SecurityAgent) :
  let sa' := add_destructive_pattern pattern sa in
  In pattern (destructive_patterns sa')
  /\ add_destructive_pattern pattern sa' = sa'
  /\ destructive_patterns sa `prefix_of` destructive_patterns sa'
  /\ enabled sa' = enabled sa
  /\ user_confirmation_callback sa' = user_confirmation_callback sa.
Proof.
  cbn zeta. unfold add_destructive_pattern.
  destruct (existsb (String.eqb pattern) (destructive_patterns sa)) eqn:Hmem;
    cbn [negb].
  - split; [now apply existsb_eqb_In|]. rewrite Hmem. cbn [negb].
    split; [reflexivity|]. split; [reflexivity|]. split; reflexivity.
  - cbn [destructive_patterns enabled user_confirmation_callback].
    split; [apply in_or_app; right; now left|]. split.
    + assert (existsb (String.eqb pattern) (destructive_patterns sa ++ [pattern])
              = true) as ->; [|reflexivity].
      apply existsb_eqb_In, in_or_app. right. now left.
    + split; [now exists [pattern]|]. split; reflexivity.
Qed.

(** X11: adding a pattern never unflags a request: what the agent flagged
    before [add_destructive_pattern] it flags after it, for the same
    reason. *)
Theorem add_destructive_pattern_keeps_flags (lower : string -> string)
    (pattern : string) (sa : SecurityAgent) (action_name : string)
    (parameters : Args) (why : string) :
  _is_destructive_action lower sa action_name parameters = Ok (true, why) ->
  _is_destructive_action lower (add_destructive_pattern pattern sa)
    action_name parameters = Ok (true, why).
Proof.
  unfold add_destructive_pattern.
  destruct (existsb (String.eqb pattern) (destructive_patterns sa));
    cbn [negb]; [trivial|].
  unfold _is_destructive_action. cbn [destructive_patterns].
  destruct (String.eqb_spec action_name "click") as [-> | _]; [|trivial].
  cbn [String.eqb Ascii.eqb Bool.eqb].
  destruct (py_lower lower (args_get parameters "selector" (VStr "")));
    [|trivial].
  destruct (py_lower lower (args_get parameters "reason" (VStr ""))); [|trivial].
  destruct (List.find _ (destructive_patterns sa)) as [found|] eqn:Hfind.
  - now rewrite (find_app_Some _ _ _ _ Hfind).
  - discriminate.
Qed.

(** ** The verdicts of [check_action] *)

(** X12: [check_action] refuses a request only when the security layer
    is enabled and the classifier flagged it; the refusal asks for a
    confirmation exactly when no callback is registered, and the callback,
    when there is one, was consulted once; nothing else of the state
    changes. *)
Theorem refusal_only_when_flagged (W : World) (action_name : string)
    (parameters : Args) (o o' : Orchestrator) (v : SecurityVerdict) :
  check_action W action_name parameters o = (Ok v, o') ->
  safe v = false ->
  let sa := security_agent o in
  enabled sa = true
  /\ (exists why,
        _is_destructive_action (py_str_lower W) sa action_name parameters
        = Ok (true, why))
  /\ match user_confirmation_callback sa with
     | None => requires_confirmation v = true /\ o' = o
     | Some _ =>
         requires_confirmation v = false /\ o' = set_clock (S (clock o)) o
     end.
Proof.
  cbn zeta. unfold check_action, bind, gets, lift, ret, tick.
  destruct (enabled (security_agent o)) eqn:Hon; cbn [negb].
  2: { intros [= <- _]. discriminate. }
  destruct (_is_destructive_action (py_str_lower W) (security_agent o)
              action_name parameters)
    as [[[] why]|e] eqn:Hflag.
  - destruct (user_confirmation_callback (security_agent o)) as [callback|].
    + destruct (callback (clock o) action_name parameters why) as [[]|e];
        intros [= <- <-]; try discriminate.
      intros _. split; [reflexivity|]. split; [eauto|]. split; reflexivity.
    + intros [= <- <-] _. split; [reflexivity|]. split; [eauto|].
      split; reflexivity.
  - intros [= <- _]. discriminate.
  - discriminate.
Qed.

Section Confirmation.

Variable W : World.

(** X13: when a flagged request meets a registered callback, the
    operator's answer decides.  Confirmed, the tool runs exactly as it does
    with the security layer off; declined, no browser action is requested and the
    refusal is appended as a tool result without the
    [requires_user_confirmation] mark; a failing callback propagates.  In
    each case the callback was consulted once. *)
Theorem confirmation_decides (tool_call : ToolCall) (o : Orchestrator)
    (callback : Callback) (why : string) :
  enabled (security_agent o) = true ->
  user_confirmation_callback (security_agent o) = Some callback ->
  _is_destructive_action (py_str_lower W) (security_agent o)
    (function_name tool_call) (function_arguments tool_call)
  = Ok (true, why) ->
  let tool_name := function_name tool_call in
  let tool_args := function_arguments tool_call in
  let asked := set_clock (S (clock o)) o in
  match callback (clock o) tool_name tool_args why with
  | Ok true =>
      _execute_tool_call W tool_call o
      = (res <- _call_tool W tool_name tool_args ;;
         record_tool_result W tool_name res)%M asked
  | Ok false =>
      _execute_tool_call W tool_call o
      = (Ok tt,
         set_context_manager
           (add_tool_result tool_name
              (json_dumps W [("success", VBool false);
                             ("error", VStr "Отклонено пользователем")]))
           asked)
  | Raise e => _execute_tool_call W tool_call o = (Raise e, asked)
  end.
Proof.
  intros Hon Hcb Hflag. cbn zeta.
  assert (check_action W (function_name tool_call) (function_arguments tool_call) o
          = match callback (clock o) (function_name tool_call)
                    (function_arguments tool_call) why with
            | Ok true =>
                (Ok (mkVerdict true "Подтверждено пользователем" false),
                 set_clock (S (clock o)) o)
            | Ok false =>
                (Ok (mkVerdict false "Отклонено пользователем" false),
                 set_clock (S (clock o)) o)
            | Raise e => (Raise e, set_clock (S (clock o)) o)
            end) as Hcheck.
  { unfold check_action, bind, gets, lift, ret, tick. cbn beta.
    rewrite Hon. cbn [negb]. rewrite Hflag, Hcb.
    destruct (callback (clock o) (function_name tool_call)
                (function_arguments tool_call) why) as [[]|e]; reflexivity. }
  destruct (callback (clock o) (function_name tool_call)
              (function_arguments tool_call) why) as [[]|e];
    unfold _execute_tool_call, bind at 1, gets at 1; cbn beta; rewrite Hon;
    unfold bind at 1; rewrite Hcheck; reflexivity.
Qed.

(** X14: with the security layer enabled, a click whose selector is not a string
    makes the security check raise [AttributeError]: [_execute_tool_call]
    raises with it before anything is appended or sent to the browser, and
    the tool calls that follow in the same answer are not executed. *)
Theorem ill_typed_click_aborts (parameters : Args) (selector : value)
    (o : Orchestrator) (later : list ToolCall) :
  enabled (security_agent o) = true ->
  args_get parameters "selector" (VStr "") = selector ->
  (forall s, selector <> VStr s) ->
  let e := PyExc "AttributeError"
             ("'" +:+ type_name_of selector
              +:+ "' object has no attribute 'lower'") in
  _execute_tool_call W (mkToolCall "click" parameters) o = (Raise e, o)
  /\ _process_llm_response W
       (mkResponse None (mkToolCall "click" parameters :: later)) o
     = (Raise e, o).
Proof.
  intros Hon Hsel Hbad. cbn zeta.
  assert (_execute_tool_call W (mkToolCall "click" parameters) o
          = (Raise (PyExc "AttributeError"
                      ("'" +:+ type_name_of selector
                       +:+ "' object has no attribute 'lower'")), o)) as Hrun.
  { unfold _execute_tool_call, bind at 1, gets at 1. rewrite Hon.
    unfold bind at 1. unfold check_action, bind, gets, lift, ret.
    rewrite Hon. cbn [negb function_name function_arguments].
    unfold _is_destructive_action. cbn [String.eqb Ascii.eqb Bool.eqb].
    rewrite Hsel.
    destruct selector as [| | |s|]; try reflexivity.
    now destruct (Hbad s). }
  split; [exact Hrun|].
  unfold _process_llm_response. cbn [response_content tool_calls for_each].
  unfold bind, ret. now rewrite Hrun.
Qed.

End Confirmation.

(** ** What a run may change *)

Section Respects.

Context {A B : Type} (R : Orchestrator -> Orchestrator -> Prop).
Hypothesis R_refl : forall o, R o o.
Hypothesis R_trans : forall o1 o2 o3, R o1 o2 -> R o2 o3 -> R o1 o3.

Lemma respects_ret (a : A) : respects R (ret a).
Proof. intros o. apply R_refl. Qed.

Lemma respects_lift (r : Result A) : respects R (lift r).
Proof. intros o. apply R_refl. Qed.

Lemma respects_gets (f : Orchestrator -> A) : respects R (gets f).
Proof. intros o. apply R_refl. Qed.

Lemma respects_bind (m : M A) (k : A -> M B) :
  respects R m -> (forall a, respects R (k a)) -> respects R (bind m k).
Proof.
  intros Hm Hk o. unfold bind. specialize (Hm o).
  destruct (m o) as [[a|e] o1]; cbn [snd] in *; [|exact Hm].
  exact (R_trans _ _ _ Hm (Hk a o1)).
Qed.

Lemma respects_try_except (body : M A) (handler : exn -> M A) :
  respects R body -> (forall e, respects R (handler e)) ->
  respects R (try_except body handler).
Proof.
  intros Hb Hh o. unfold try_except. specialize (Hb o).
  destruct (body o) as [[a|e] o1]; cbn [snd] in *; [exact Hb|].
  exact (R_trans _ _ _ Hb (Hh e o1)).
Qed.

Lemma respects_for_each (l : list A) (f : A -> M unit) :
  (forall x, respects R (f x)) -> respects R (for_each l f).
Proof.
  intros Hf. induction l as [|x l IH]; cbn [for_each].
  - intros o. apply R_refl.
  - intros o. unfold bind. pose proof (Hf x o) as Hx.
    destruct (f x o) as [[[]|e] o1]; cbn [snd] in *; [|exact Hx].
    exact (R_trans _ _ _ Hx (IH o1)).
Qed.

End Respects.

(** Follows the syntax of a computation through the combinators; [step]
    settles the elementary changes of the state. *)
Ltac respect_with HC step :=
  repeat match goal with
    | |- respects _ (ret _) => apply respects_ret; exact (cf_refl _ HC)
    | |- respects _ (lift _) => apply respects_lift; exact (cf_refl _ HC)
    | |- respects _ (gets _) => apply respects_gets; exact (cf_refl _ HC)
    | |- respects _ tick => intros ?; exact (cf_tick _ HC _)
    | |- respects _ (modify _) => intros ?; cbn [modify snd]; step
    | |- respects _ (bind _ _) =>
        apply respects_bind; [exact (cf_trans _ HC) | | intro]
    | |- respects _ (try_except _ _) =>
        apply respects_try_except; [exact (cf_trans _ HC) | | intro]
    | |- respects _ (for_each _ _) =>
        apply respects_for_each;
        [exact (cf_refl _ HC) | exact (cf_trans _ HC) | intro]
    | |- respects _ (if ?b then _ else _) => destruct b
    | |- respects _ (match ?x with _ => _ end) => destruct x
    end.

Section CallFrame.

Variable W : World.
Variable R : Orchestrator -> Orchestrator -> Prop.
Hypothesis HC : call_frame R.

Lemma check_action_respects name args : respects R (check_action W name args).
Proof. unfold check_action. respect_with HC fail. Qed.

Lemma call_browser_respects method args :
  respects R (call_browser W method args).
Proof. unfold call_browser. respect_with HC ltac:(apply (cf_browser _ HC)). Qed.

Lemma call_tool_respects name args :
  name <> "task_complete" \/ allows_completion R ->
  respects R (_call_tool W name args).
Proof.
  intros Hdone. unfold _call_tool.
  apply respects_try_except;
    [exact (cf_trans _ HC) | | intro; apply respects_ret; exact (cf_refl _ HC)].
  repeat match goal with
         | |- respects _ (if String.eqb name ?s then _ else _) =>
             destruct (String.eqb_spec name s)
         end;
    try (respect_with HC fail; apply call_browser_respects).
  destruct Hdone as [Hne | Hok]; [congruence|].
  intros o. cbn. apply Hok.
Qed.

End CallFrame.

Section ToolFrame.

Variable W : World.
Variable R : Orchestrator -> Orchestrator -> Prop.
Hypothesis HR : tool_frame R.

Lemma tool_call_frame : call_frame R.
Proof. exact (tf_call R HR). Qed.

Local Ltac tool_step :=
  first [ apply (cf_browser _ tool_call_frame) | apply (tf_warning _ HR)
        | apply (tf_append _ HR); reflexivity ].

Lemma execute_tool_call_respects tc :
  function_name tc <> "task_complete" \/ allows_completion R ->
  respects R (_execute_tool_call W tc).
Proof.
  intros Hdone. unfold _execute_tool_call, record_tool_result.
  apply respects_bind;
    [exact (cf_trans _ tool_call_frame)
    | apply respects_gets; exact (cf_refl _ tool_call_frame) |].
  intros sa.
  assert (respects R
            (res <- _call_tool W (function_name tc) (function_arguments tc) ;;
             modify (set_context_manager
                       (add_tool_result (function_name tc) (json_dumps W res))))%M)
    as Hrun.
  { apply respects_bind;
      [exact (cf_trans _ tool_call_frame)
      | apply call_tool_respects; [exact tool_call_frame | exact Hdone] |].
    intro. respect_with tool_call_frame tool_step. }
  destruct (enabled sa); [|exact Hrun].
  apply respects_bind;
    [exact (cf_trans _ tool_call_frame)
    | apply check_action_respects; exact tool_call_frame |].
  intros v. destruct (negb (safe v)); [|exact Hrun].
  respect_with tool_call_frame tool_step.
Qed.

Lemma process_llm_response_respects response :
  Forall (fun tc => function_name tc <> "task_complete") (tool_calls response)
  \/ allows_completion R ->
  respects R (_process_llm_response W response).
Proof.
  intros Hdone.
  assert (Forall (fun tc => function_name tc <> "task_complete"
                            \/ allows_completion R) (tool_calls response))
    as Heach.
  { destruct Hdone as [Hall | Hok].
    - eapply Forall_impl; [exact Hall|]. intros; now left.
    - apply Forall_forall. intros; now right. }
  assert (respects R (for_each (tool_calls response) (_execute_tool_call W)))
    as Hloop.
  { clear Hdone. induction Heach as [|x l Hx _ IH]; cbn [for_each].
    - apply respects_ret. exact (cf_refl _ tool_call_frame).
    - apply respects_bind;
        [exact (cf_trans _ tool_call_frame)
        | now apply execute_tool_call_respects |].
      intros _. exact IH. }
  unfold _process_llm_response.
  apply respects_bind; [exact (cf_trans _ tool_call_frame) | |].
  { respect_with tool_call_frame tool_step. }
  intros _. destruct (tool_calls response) as [|tc calls]; [|exact Hloop].
  respect_with tool_call_frame tool_step.
Qed.

Lemma attempt_recovery_respects err : respects R (_attempt_recovery W err).
Proof. unfold _attempt_recovery. respect_with tool_call_frame tool_step. Qed.

End ToolFrame.

Section RunFrame.

Variable W : World.
Variable R : Orchestrator -> Orchestrator -> Prop.
Hypothesis HR : run_frame W R.

Lemma run_tool_frame : tool_frame R.
Proof. exact (rf_tool W R HR). Qed.

Lemma run_call_frame : call_frame R.
Proof. exact (tf_call R run_tool_frame). Qed.

Lemma respects_bind_lift {A B} (r : Result A) (k : A -> M B) :
  (forall a, r = Ok a -> respects R (k a)) -> respects R (bind (lift r) k).
Proof.
  intros Hk o. unfold bind, lift. destruct r as [a|e]; cbn [snd].
  - now apply Hk.
  - apply (cf_refl _ run_call_frame).
Qed.

Lemma get_messages_M_respects : respects R (get_messages_M W).
Proof.
  intros o. pose proof (rf_get W R HR o) as Hget.
  unfold get_messages_M.
  unfold set_context_manager in Hget. cbn [snd] in Hget |- *.
  destruct (get_messages (count_tokens W) true (context_manager o))
    as [messages cm]. exact Hget.
Qed.

Lemma plan_and_act_respects task : respects R (plan_and_act W task).
Proof.
  unfold plan_and_act.
  apply respects_bind; [exact (cf_trans _ run_call_frame)
  | intros ?; exact (cf_tick _ run_call_frame _) |].
  intros t. apply respects_bind_lift. intros page _.
  apply respects_bind; [exact (cf_trans _ run_call_frame) | |].
  { intros o. apply (tf_append _ run_tool_frame). reflexivity. }
  intros _.
  apply respects_bind; [exact (cf_trans _ run_call_frame)
  | apply get_messages_M_respects |].
  intros messages.
  apply respects_bind;
    [exact (cf_trans _ run_call_frame)
    | apply respects_gets; exact (cf_refl _ run_call_frame) |].
  intros seen.
  apply respects_bind; [exact (cf_trans _ run_call_frame) | |].
  { intros o. apply (rf_llm W R HR). }
  intros _.
  apply respects_bind; [exact (cf_trans _ run_call_frame)
  | intros ?; exact (cf_tick _ run_call_frame _) |].
  intros t'. apply respects_bind_lift. intros response Hresponse.
  apply process_llm_response_respects; [exact run_tool_frame|].
  destruct (rf_complete W R HR) as [Hnever | Hok]; [left | now right].
  exact (Hnever _ _ _ Hresponse).
Qed.

Lemma loop_body_respects task : respects R (loop_body W task).
Proof.
  intros o.
  assert (respects R
            (try_except (plan_and_act W task ;;; ret None)
               (fun e =>
                  recovery_result <- _attempt_recovery W (exc_str e) ;;
                  if negb recovery_result then
                    step' <- gets current_step ;;
                    ret (Some (mkTaskResult (VBool false) (VStr "") step'
                                            (Some (exc_str e))))
                  else ret None))%M) as Hrest.
  { apply respects_try_except; [exact (cf_trans _ run_call_frame) | | intro].
    - apply respects_bind;
        [exact (cf_trans _ run_call_frame) | apply plan_and_act_respects |].
      intro. apply respects_ret. exact (cf_refl _ run_call_frame).
    - apply respects_bind;
        [exact (cf_trans _ run_call_frame)
        | apply attempt_recovery_respects; exact run_tool_frame |].
      intros b. respect_with run_call_frame fail. }
  exact (cf_trans _ run_call_frame _ _ _ (rf_step W R HR o) (Hrest _)).
Qed.

Lemma main_loop_respects task fuel :
  forall o x, main_loop W fuel task o = Some x -> R o (snd x).
Proof.
  induction fuel as [|fuel IH]; intros o x; cbn [main_loop];
    destruct (negb (task_completed o) && (current_step o <? max_steps o));
    try discriminate;
    try (intros [= <-]; exact (cf_refl _ run_call_frame o)).
  pose proof (loop_body_respects task o) as Hbody.
  destruct (loop_body W task o) as [[[tr|]|e] o1]; cbn [snd] in Hbody.
  - intros [= <-]. exact Hbody.
  - intros Hloop. exact (cf_trans _ run_call_frame _ _ _ Hbody (IH _ _ Hloop)).
  - intros [= <-]. exact Hbody.
Qed.

(** From the state the statements before the loop leave to the state
    [execute_task] ends in. *)
Lemma execute_task_respects task o :
  R (begin_task W task o) (final_state (execute_task W task o) o).
Proof.
  unfold execute_task.
  pose proof (main_loop_respects task
                (Z.to_nat (max_steps (begin_task W task o)))
                (begin_task W task o)) as Hloop.
  destruct (execute_task_spec W task o) as (tr & o' & Hrun & _).
  unfold execute_task in Hrun.
  destruct (main_loop W _ task (begin_task W task o)) as [[[[r|]|e] o1]|];
    try discriminate Hrun; specialize (Hloop _ eq_refl); cbn [snd] in Hloop.
  - exact Hloop.
  - unfold conclude, bind, gets, modify, ret. cbn beta iota.
    destruct (task_completed o1); [destruct (task_result o1)|];
      try destruct (current_step o1 >=? max_steps o1); cbn [final_state];
      try exact Hloop;
      exact (cf_trans _ run_call_frame _ _ _ Hloop (tf_warning _ run_tool_frame _ _)).
Qed.

End RunFrame.

(** ** The relations a run respects *)

Lemma same_settings_frame (W : World) : run_frame W same_settings.
Proof.
  assert (call_frame same_settings) as HC.
  { split; try (intros; split; reflexivity).
    intros o1 o2 o3 [H1 H2] [H3 H4]. split; congruence. }
  split; [split; [exact HC| |] | | | |]; try (intros; split; reflexivity).
  right. intros s r o. split; reflexivity.
Qed.

Lemma logs_grow_frame (W : World) : run_frame W logs_grow.
Proof.
  assert (forall o o',
            browser_calls o `prefix_of` browser_calls o' ->
            warnings o `prefix_of` warnings o' ->
            llm_inputs o `prefix_of` llm_inputs o' ->
            (clock o <= clock o')%nat -> logs_grow o o') as Hintro.
  { intros o o' H1 H2 H3 H4. split; [exact H1|]. split; [exact H2|].
    split; [exact H3 | exact H4]. }
  assert (call_frame logs_grow) as HC.
  { split.
    - intros o. apply Hintro; reflexivity.
    - intros o1 o2 o3 (H1 & H2 & H3 & H4) (H5 & H6 & H7 & H8).
      apply Hintro; first [etrans; eassumption | lia].
    - intros o. apply Hintro; try reflexivity. cbn. lia.
    - intros x o. apply Hintro; try reflexivity.
      cbn. now apply prefix_app_r. }
  split; [split; [exact HC| |] | | | |].
  - intros x o. apply Hintro; try reflexivity. cbn. now apply prefix_app_r.
  - intros m o _. apply Hintro; reflexivity.
  - right. intros s r o. apply Hintro; reflexivity.
  - intros x o. apply Hintro; try reflexivity. cbn. now apply prefix_app_r.
  - intros o. apply Hintro; reflexivity.
  - intros o. apply Hintro; reflexivity.
Qed.

Lemma manager_kept_intro (o o' : Orchestrator) :
  context_manager o' = context_manager o -> manager_kept o o'.
Proof.
  intros H. unfold manager_kept. rewrite H.
  split; [reflexivity|]. split; [reflexivity|]. split; [reflexivity|].
  intros _ Hwf. exact Hwf.
Qed.

Lemma manager_kept_frame (W : World) : run_frame W manager_kept.
Proof.
  assert (call_frame manager_kept) as HC.
  { split; try (intros; now apply manager_kept_intro).
    intros o1 o2 o3 (H1 & H2 & H3 & H4) (H5 & H6 & H7 & H8).
    unfold manager_kept.
    split; [congruence|]. split; [congruence|]. split; [congruence|].
    intros Hmax Hwf. apply H8; [rewrite H3; exact Hmax | now apply H4]. }
  split; [split; [exact HC| |] | | | |];
    try (intros; now apply manager_kept_intro).
  - intros m o Hm. unfold manager_kept.
    split; [reflexivity|]. split; [reflexivity|]. split; [reflexivity|].
    intros Hmax Hwf. now apply append_message_wf.
  - right. intros s r o. now apply manager_kept_intro.
  - intros o. unfold manager_kept. cbn [context_manager set_context_manager].
    destruct (get_messages_frame (count_tokens W) (context_manager o))
      as (H1 & H2 & H3 & _).
    split; [exact H1|]. split; [exact H2|]. split; [now rewrite H3|].
    intros _ Hwf. now apply get_messages_wf.
Qed.

Lemma same_manager_frame : call_frame same_manager.
Proof.
  split; try (intros; reflexivity).
  unfold same_manager. intros o1 o2 o3 H1 H2. congruence.
Qed.

Lemma same_outcome_frame : tool_frame same_outcome.
Proof.
  split; [split|..]; try (intros; split; reflexivity).
  intros o1 o2 o3 [H1 H2] [H3 H4]. split; congruence.
Qed.

Lemma stays_open_frame (W : World) :
  never_completes W -> run_frame W stays_open.
Proof.
  intros Hnever.
  assert (call_frame stays_open) as HC.
  { split; try (intros; intro; assumption).
    intros o1 o2 o3 H1 H2 H. apply H2, H1, H. }
  split; [split; [exact HC| |] | | | |]; try (intros; intro; assumption).
  now left.
Qed.

(** ** What a run leaves alone *)

Section Runs.

Variable W : World.

(** X15: [execute_task] returns a result, never changes the security agent or
    the step budget of the orchestrator, and only extends the records of
    what was done: the browser actions requested, the conversations sent
    to the model and the warnings logged before the call are a prefix of
    those after it. *)
Theorem run_keeps_settings (task : string) (o : Orchestrator) :
  exists tr o',
    execute_task W task o = Some (Ok tr, o')
    /\ security_agent o' = security_agent o
    /\ max_steps o' = max_steps o
    /\ browser_calls o `prefix_of` browser_calls o'
    /\ llm_inputs o `prefix_of` llm_inputs o'
    /\ warnings o `prefix_of` warnings o'.
Proof.
  destruct (execute_task_spec W task o) as (tr & o' & Hrun & _).
  exists tr, o'. split; [exact Hrun|].
  pose proof (execute_task_respects W _ (same_settings_frame W) task o)
    as [Hsa Hmax].
  pose proof (execute_task_respects W _ (logs_grow_frame W) task o)
    as (Hb & Hw & Hl & _).
  rewrite Hrun in *. cbn [final_state] in *.
  split; [exact Hsa|]. split; [exact Hmax|]. split; [exact Hb|].
  split; [exact Hl | exact Hw].
Qed.

(** X16: a run keeps the token budget, the window and the bound of the deque
    of the context manager, and leaves a well-formed manager well formed:
    every message of the history is a stored, non-system message, the
    system slot holds a system message, and the deque is within its
    bound. *)
Theorem run_keeps_manager (task : string) (o : Orchestrator) :
  0 <= maxlen (message_history (context_manager o)) ->
  wf_manager (context_manager o) ->
  exists tr o',
    execute_task W task o = Some (Ok tr, o')
    /\ max_tokens (context_manager o') = max_tokens (context_manager o)
    /\ sliding_window_size (context_manager o')
       = sliding_window_size (context_manager o)
    /\ maxlen (message_history (context_manager o'))
       = maxlen (message_history (context_manager o))
    /\ wf_manager (context_manager o').
Proof.
  intros Hmax Hwf.
  destruct (execute_task_spec W task o) as (tr & o' & Hrun & _).
  exists tr, o'. split; [exact Hrun|].
  pose proof (execute_task_respects W _ (manager_kept_frame W) task o)
    as (H1 & H2 & H3 & H4).
  rewrite Hrun in *. cbn [final_state] in *.
  split; [exact H1|]. split; [exact H2|]. split; [exact H3|].
  apply H4; [exact Hmax|].
  unfold begin_task. cbn [context_manager set_context_manager].
  apply append_message_wf; [reflexivity | exact Hmax |].
  now apply set_system_message_wf.
Qed.

(** X17: only [task_complete] ends a task: an answer of the model none of
    whose tool calls is [task_complete] leaves the completion flag and the
    recorded result as they were, whatever the tools do and whether the
    processing returns or raises. *)
Theorem only_task_complete_ends (response : Response) (o : Orchestrator) :
  Forall (fun tc => function_name tc <> "task_complete")
         (tool_calls response) ->
  let o' := snd (_process_llm_response W response o) in
  task_completed o' = task_completed o /\ task_result o' = task_result o.
Proof.
  intros Hcalls.
  exact (process_llm_response_respects W _ same_outcome_frame response
           (or_introl Hcalls) o).
Qed.

(** X18: when the model never asks for [task_complete] and the recovery prompt
    can always be built, a run with a non-negative budget uses the budget
    up exactly: it returns the step-limit failure with [steps_taken] equal
    to [max_steps], and the task is left open. *)
Theorem budget_exhausted (task : string) (o : Orchestrator) :
  never_completes W ->
  (forall msg p, exists s, error_recovery_prompt W msg p = Ok s) ->
  0 <= max_steps o ->
  exists o',
    execute_task W task o
    = Some (Ok (mkTaskResult (VBool false) (VStr "") (max_steps o)
                             (Some "Превышен лимит шагов")), o')
    /\ task_completed o' = false
    /\ current_step o' = max_steps o.
Proof.
  intros Hnever Hrecover Hmax.
  destruct (execute_task_spec W task o) as (tr & o' & Hrun & _ & Hcases).
  pose proof (execute_task_respects W _ (stays_open_frame W Hnever) task o)
    as Hopen.
  rewrite Hrun in Hopen. cbn [final_state] in Hopen.
  specialize (Hopen eq_refl).
  exists o'.
  destruct Hcases as [(Hdone & _) | [((_ & _ & msg & p & x & _ & Hx) & _)
                                    | (-> & H0 & Hge & Hle)]].
  - congruence.
  - destruct (Hrecover msg p) as [s Hs]. congruence.
  - specialize (Hle Hmax).
    assert (current_step o' = max_steps o) as Heq by lia.
    rewrite Hrun, Heq. split; [reflexivity|]. split; [exact Hopen | reflexivity].
Qed.

End Runs.

(** ** Steps and calls of the model *)

Lemma quiet_frame : tool_frame quiet.
Proof.
  split; [split|..]; try (intros; split; reflexivity).
  intros o1 o2 o3 [H1 H2] [H3 H4]. split; congruence.
Qed.

Lemma quiet_completion : allows_completion quiet.
Proof. intros s r o. split; reflexivity. Qed.

Lemma stamped_invariant (c : Z) : engine_invariant (stamped c).
Proof.
  split; try (intros; assumption).
  intros s r o [Hc _]. split; [exact Hc|].
  intros _ r' [= <-]. exact Hc.
Qed.

Section Calls.

Variable W : World.

Lemma plan_and_act_calls (task : string) (o : Orchestrator) :
  let o' := snd (plan_and_act W task o) in
  current_step o' = current_step o
  /\ (length (llm_inputs o') <= S (length (llm_inputs o)))%nat.
Proof.
  cbn zeta. destruct (plan_and_act W task o) as [r o'] eqn:Hrun.
  cbn [snd]. revert Hrun. unfold plan_and_act.
  unfold bind at 1, tick at 1.
  unfold bind at 1, lift at 1.
  destruct (get_page_info W (clock o)) as [page|e];
    [|intros [= _ <-]; cbn; split; [reflexivity|lia]].
  unfold bind at 1, modify at 1.
  unfold bind at 1, get_messages_M at 1.
  match goal with
  | |- context [get_messages ?c ?b ?x] =>
      destruct (get_messages c b x) as [messages cm]
  end.
  unfold bind at 1, gets at 1. unfold bind at 1, modify at 1.
  match goal with
  | |- ?m ?s = _ -> _ =>
      assert (respects quiet m) as Hrest;
      [|intros Hrun; pose proof (Hrest s) as [Hl Hc]; rewrite Hrun in Hl, Hc;
        cbn [snd] in Hl, Hc; rewrite Hl, Hc; cbn;
        rewrite length_app; cbn; split; [reflexivity|lia]]
  end.
  pose proof (tf_call _ quiet_frame) as HC.
  apply respects_bind; [exact (cf_trans _ HC)
  | intros ?; exact (cf_tick _ HC _) |].
  intros t'.
  apply respects_bind;
    [exact (cf_trans _ HC) | apply respects_lift; exact (cf_refl _ HC) |].
  intros response.
  apply process_llm_response_respects; [exact quiet_frame|].
  right. exact quiet_completion.
Qed.

Lemma loop_body_calls (task : string) (o : Orchestrator) :
  let o' := snd (loop_body W task o) in
  current_step o' = current_step o + 1
  /\ (length (llm_inputs o') <= S (length (llm_inputs o)))%nat.
Proof.
  cbn zeta. destruct (loop_body W task o) as [r o'] eqn:Hrun.
  cbn [snd]. revert Hrun. unfold loop_body.
  unfold bind at 1, gets at 1. unfold bind at 1, modify at 1.
  unfold try_except. unfold bind at 1.
  pose proof (plan_and_act_calls task
                (set_current_step (current_step o + 1) o)) as [Hc Hl].
  cbn zeta in Hc, Hl.
  destruct (plan_and_act W task (set_current_step (current_step o + 1) o))
    as [[[]|e] o1]; cbn [snd] in Hc, Hl.
  - intros [= _ <-]. split; [exact Hc | exact Hl].
  - pose proof (attempt_recovery_respects W _ quiet_frame (exc_str e) o1)
      as [Hl2 Hc2].
    unfold bind at 1.
    destruct (_attempt_recovery W (exc_str e) o1) as [[[]|e2] o2];
      cbn [snd] in Hl2, Hc2; cbn; intros [= _ <-];
      rewrite Hl2, Hc2; split; [exact Hc | exact Hl | exact Hc | exact Hl
                                | exact Hc | exact Hl].
Qed.

(** A property that every pass of the loop keeps, whenever the pass is
    entered with the task open and steps left, holds when the loop
    ends. *)
Lemma main_loop_preserves (P : Orchestrator -> Prop) (task : string) :
  (forall o, P o -> task_completed o = false ->
             current_step o < max_steps o ->
             P (snd (loop_body W task o))) ->
  forall fuel o x, P o -> main_loop W fuel task o = Some x -> P (snd x).
Proof.
  intros Hbody.
  induction fuel as [|fuel IH]; intros o x HP; cbn [main_loop];
    destruct (negb (task_completed o) && (current_step o <? max_steps o))
      eqn:Hguard;
    try discriminate; try (intros [= <-]; exact HP).
  apply andb_true_iff in Hguard as [Hopen Hlt].
  apply negb_true_iff in Hopen. apply Z.ltb_lt in Hlt.
  specialize (Hbody o HP Hopen Hlt).
  destruct (loop_body W task o) as [[[tr|]|e] o1]; cbn [snd] in Hbody.
  - intros [= <-]. exact Hbody.
  - intros Hloop. exact (IH _ _ Hbody Hloop).
  - intros [= <-]. exact Hbody.
Qed.

Lemma execute_task_preserves (P : Orchestrator -> Prop) (task : string)
    (o : Orchestrator) :
  (forall o, P o -> task_completed o = false ->
             current_step o < max_steps o ->
             P (snd (loop_body W task o))) ->
  (forall x o, P o -> P (log_warning x o)) ->
  P (begin_task W task o) ->
  P (final_state (execute_task W task o) o).
Proof.
  intros Hbody Hwarn Hstart. unfold execute_task.
  pose proof (main_loop_preserves P task Hbody
                (Z.to_nat (max_steps (begin_task W task o)))
                (begin_task W task o)) as Hloop.
  destruct (execute_task_spec W task o) as (tr & o' & Hrun & _).
  unfold execute_task in Hrun.
  destruct (main_loop W _ task (begin_task W task o)) as [[[[r|]|e] o1]|];
    try discriminate Hrun; specialize (Hloop _ Hstart eq_refl);
    cbn [snd] in Hloop.
  - exact Hloop.
  - unfold conclude, bind, gets, modify, ret. cbn beta iota.
    destruct (task_completed o1); [destruct (task_result o1)|];
      try destruct (current_step o1 >=? max_steps o1); cbn [final_state];
      try exact Hloop; now apply Hwarn.
Qed.

Lemma loop_body_accounted (sent : nat) (task : string) (o : Orchestrator) :
  accounted sent o -> task_completed o = false ->
  accounted sent (snd (loop_body W task o)).
Proof.
  intros (H0 & Hsent & _) Hopen.
  destruct (loop_body_calls task o) as [Hc Hl]. cbn zeta in Hc, Hl.
  pose proof (loop_body_inv W _ (stamped_invariant (current_step o + 1))
                task o) as Hstamp.
  unfold accounted. rewrite Hc.
  split; [lia|]. split; [lia|].
  apply Hstamp. split; [reflexivity|].
  cbn. rewrite Hopen. discriminate.
Qed.

(** X19: the step count a run reports is the value its step counter ends at,
    whichever way the run ends, and the model was called at most once per
    counted step: the conversations sent to the model during the run are at
    most [steps_taken]. *)
Theorem steps_count_model_calls (task : string) (o : Orchestrator) :
  exists tr o',
    execute_task W task o = Some (Ok tr, o')
    /\ steps_taken tr = current_step o'
    /\ 0 <= steps_taken tr
    /\ Z.of_nat (length (llm_inputs o'))
       <= Z.of_nat (length (llm_inputs o)) + steps_taken tr.
Proof.
  destruct (execute_task_spec W task o) as (tr & o' & Hrun & _ & Hcases).
  exists tr, o'. split; [exact Hrun|].
  pose proof (execute_task_preserves (accounted (length (llm_inputs o)))
                task o) as Hacc.
  rewrite Hrun in Hacc. cbn [final_state] in Hacc.
  destruct Hacc as (H0 & Hsent & _ & Hstamp).
  - intros o1 H1 Hopen _. now apply loop_body_accounted.
  - intros x o1 H1. exact H1.
  - unfold accounted, stamped. cbn. split; [lia|]. split; [lia|].
    split; [reflexivity | discriminate].
  - assert (steps_taken tr = current_step o') as Heq.
    { destruct Hcases as [(Hdone & Hres & _) | [(_ & Hs & _) | (-> & _)]].
      - now apply Hstamp.
      - exact Hs.
      - reflexivity. }
    rewrite Heq. split; [reflexivity|]. split; [exact H0 | exact Hsent].
Qed.

End Calls.

(** ** Tool calls and their results *)

Section Results.

Variable W : World.

Lemma check_action_state (name : string) (args : Args) (o : Orchestrator) :
  snd (check_action W name args o) = o
  \/ snd (check_action W name args o) = set_clock (S (clock o)) o.
Proof.
  unfold check_action, bind, gets, lift, ret, tick.
  destruct (negb (enabled (security_agent o))); [now left|].
  destruct (_is_destructive_action (py_str_lower W) (security_agent o) name
              args)
    as [[[] why]|e]; try (now left).
  destruct (user_confirmation_callback (security_agent o)) as [callback|];
    [|now left].
  destruct (callback (clock o) name args why) as [[]|e]; now right.
Qed.

Lemma call_tool_effect (name : string) (args : Args) (o : Orchestrator) :
  exists res o1,
    _call_tool W name args o = (Ok res, o1)
    /\ context_manager o1 = context_manager o
    /\ one_action name o o1.
Proof.
  destruct (call_tool_never_raises W name args o) as (res & o1 & Hrun).
  exists res, o1. split; [exact Hrun|].
  pose proof (call_tool_respects W _ same_manager_frame name args
                (or_intror (fun s r o => eq_refl)) o) as Hcm.
  rewrite Hrun in Hcm. split; [exact Hcm|].
  clear Hcm. revert Hrun. unfold _call_tool, try_except, one_action.
  repeat match goal with
         | |- context [if String.eqb name ?s then _ else _] =>
             destruct (String.eqb_spec name s) as [->|?]
         end;
    unfold call_browser, args_subscript;
    unfold bind, lift, tick, modify, ret, gets;
    cbn beta;
    repeat match goal with
           | |- context [args !! ?k] => destruct (args !! k); cbn beta iota
           | |- context [browser_agent W ?t ?m ?a] =>
               destruct (browser_agent W t m a); cbn beta iota
           end;
    intros [= _ <-]; cbn;
    first [ left; reflexivity
          | right; eexists; split; [reflexivity | cbn; tauto] ].
Qed.

Lemma execute_tool_call_effect (tc : ToolCall) (o : Orchestrator) :
  one_action (function_name tc) o (snd (_execute_tool_call W tc o))
  /\ match _execute_tool_call W tc o with
     | (Ok _, o') =>
         exists text,
           context_manager o'
           = add_tool_result (function_name tc) text (context_manager o)
     | (Raise _, o') => context_manager o' = context_manager o
     end.
Proof.
  assert (forall o1,
            context_manager o1 = context_manager o ->
            browser_calls o1 = browser_calls o ->
            exists res o2,
              (res <- _call_tool W (function_name tc) (function_arguments tc) ;;
               record_tool_result W (function_name tc) res)%M o1
              = (Ok tt, o2)
              /\ one_action (function_name tc) o o2
              /\ context_manager o2
                 = add_tool_result (function_name tc) (json_dumps W res)
                     (context_manager o)) as Hrun.
  { intros o1 Hcm Hb.
    destruct (call_tool_effect (function_name tc) (function_arguments tc) o1)
      as (res & o2 & Hcall & Hcm2 & Hb2).
    exists res. eexists. unfold bind. rewrite Hcall.
    split; [reflexivity|]. unfold one_action in *. cbn.
    rewrite Hcm2, Hcm, <- Hb. split; [exact Hb2 | reflexivity]. }
  destruct (_execute_tool_call W tc o) as [r o'] eqn:Hexec. cbn [snd].
  revert Hexec. unfold _execute_tool_call, bind at 1, gets at 1.
  destruct (enabled (security_agent o)).
  2: { destruct (Hrun o eq_refl eq_refl) as (res & o2 & -> & Hb & Hcm).
       intros [= <- <-]. split; [exact Hb | now exists (json_dumps W res)]. }
  unfold bind at 1.
  assert (context_manager (snd (check_action W (function_name tc)
                                  (function_arguments tc) o))
          = context_manager o
          /\ browser_calls (snd (check_action W (function_name tc)
                                   (function_arguments tc) o))
             = browser_calls o) as [Hcm Hb].
  { destruct (check_action_state (function_name tc) (function_arguments tc) o)
      as [-> | ->]; split; reflexivity. }
  destruct (check_action W (function_name tc) (function_arguments tc) o)
    as [[v|e] o1]; cbn [snd] in Hcm, Hb.
  2: { intros [= <- <-]. split; [left; exact Hb | exact Hcm]. }
  destruct (negb (safe v)).
  - destruct (requires_confirmation v);
      unfold bind, modify, record_tool_result; intros [= <- <-]; cbn;
      rewrite Hcm; (split; [left; exact Hb | eexists; reflexivity]).
  - destruct (Hrun o1 Hcm Hb) as (res & o2 & -> & Hb2 & Hcm2).
    intros [= <- <-]. split; [exact Hb2 | now exists (json_dumps W res)].
Qed.

Lemma for_each_records (calls : list ToolCall) :
  forall o,
    match for_each calls (_execute_tool_call W) o with
    | (r, o') =>
        exists texts,
          context_manager o' = record_results calls texts (context_manager o)
          /\ match r with
             | Ok _ => length texts = length calls
             | Raise _ => (length texts < length calls)%nat
             end
    end.
Proof.
  induction calls as [|tc calls IH]; intros o; cbn [for_each].
  - exists []. split; reflexivity.
  - unfold bind.
    destruct (execute_tool_call_effect tc o) as [_ Hcall].
    destruct (_execute_tool_call W tc o) as [[[]|e] o1].
    + destruct Hcall as [text Hcm]. specialize (IH o1).
      destruct (for_each calls (_execute_tool_call W) o1) as [r o2].
      destruct IH as (texts & Hcm2 & Hlen).
      exists (text :: texts). split.
      * rewrite Hcm2, Hcm. reflexivity.
      * destruct r; cbn [length]; lia.
    + exists []. split; [exact Hcall | cbn [length]; lia].
Qed.

(** X20: the results of the tool calls of one answer are appended to the
    conversation in the order of the calls, one per call, each under the
    name of its call, after the text of the answer if it has one; when a
    call raises, the results of the calls before it are there and nothing
    of the calls from it on. *)
Theorem tool_results_in_order (response : Response) (o : Orchestrator) :
  match _process_llm_response W response o with
  | (r, o') =>
      exists texts,
        context_manager o'
        = record_results (tool_calls response) texts
            (said response (context_manager o))
        /\ match r with
           | Ok _ => length texts = length (tool_calls response)
           | Raise _ => (length texts < length (tool_calls response))%nat
           end
  end.
Proof.
  unfold _process_llm_response, bind at 1.
  assert (exists o1,
            match response_content response with
            | Some c =>
                if String.eqb c ""
                then ret tt
                else modify (set_context_manager (add_assistant_message c))
            | None => ret tt
            end o = (Ok tt, o1)
            /\ context_manager o1 = said response (context_manager o))
    as (o1 & -> & <-).
  { unfold said. destruct (response_content response) as [c|];
      [destruct (String.eqb c "")|]; eexists; split; reflexivity. }
  pose proof (for_each_records (tool_calls response) o1) as Hloop.
  destruct (tool_calls response) as [|tc calls]; [|exact Hloop].
  exists []. split; reflexivity.
Qed.

Lemma execute_tool_call_refused (tc : ToolCall) (o : Orchestrator) :
  enabled (security_agent o) = true ->
  (forall v o1,
      check_action W (function_name tc) (function_arguments tc) o
      = (Ok v, o1) -> safe v = false) ->
  browser_calls (snd (_execute_tool_call W tc o)) = browser_calls o.
Proof.
  intros Hon Hrefused.
  unfold _execute_tool_call, bind at 1, gets at 1. rewrite Hon.
  unfold bind at 1.
  assert (browser_calls (snd (check_action W (function_name tc)
                                (function_arguments tc) o))
          = browser_calls o) as Hb.
  { destruct (check_action_state (function_name tc) (function_arguments tc) o)
      as [-> | ->]; reflexivity. }
  destruct (check_action W (function_name tc) (function_arguments tc) o)
    as [[v|e] o1]; cbn [snd] in Hb; [|exact Hb].
  rewrite (Hrefused v o1 eq_refl). cbn [negb].
  destruct (requires_confirmation v);
    unfold bind, modify, record_tool_result; cbn; exact Hb.
Qed.

(** X21: one tool call requests at most one action of the browser, under
    its own name, only for the eight browser tools and only when the
    security layer is disabled or its check returned a safe verdict; a call
    the check refused requests none, and neither do [task_complete],
    [ask_user] and an unknown tool. *)
Theorem tool_call_requests_one_action (tc : ToolCall) (o : Orchestrator) :
  let name := function_name tc in
  let args := function_arguments tc in
  let o' := snd (_execute_tool_call W tc o) in
  (browser_calls o' = browser_calls o
   \/ ((enabled (security_agent o) = false
        \/ exists v o1,
             check_action W name args o = (Ok v, o1) /\ safe v = true)
       /\ In name browser_methods
       /\ exists argv, browser_calls o' = browser_calls o ++ [(name, argv)]))
  /\ (forall v o1,
        enabled (security_agent o) = true ->
        check_action W name args o = (Ok v, o1) ->
        safe v = false ->
        browser_calls o' = browser_calls o).
Proof.
  cbn zeta. split.
  - destruct (execute_tool_call_effect tc o) as [[Hsame | (argv & Hone & Hin)] _];
      [now left|].
    destruct (enabled (security_agent o)) eqn:Hon.
    2: { right. split; [now left|]. split; [exact Hin | now exists argv]. }
    destruct (check_action W (function_name tc) (function_arguments tc) o)
      as [[v|e] o1] eqn:Hcheck.
    + destruct (safe v) eqn:Hsafe.
      * right. split; [right; now exists v, o1|].
        split; [exact Hin | now exists argv].
      * left. apply execute_tool_call_refused; [exact Hon|].
        intros v' o2. rewrite Hcheck. now intros [= <- _].
    + left. apply execute_tool_call_refused; [exact Hon|].
      intros v' o2. rewrite Hcheck. discriminate.
  - intros v o1 Hon Hcheck Hsafe.
    apply execute_tool_call_refused; [exact Hon|].
    intros v' o2. rewrite Hcheck. now intros [= <- _].
Qed.

End Results.

(** ** Selectors of the browser agent *)

(** X22: [_convert_to_selector] never returns an AI id, so converting twice is
    converting once: the methods of the browser agent may be handed a
    selector that was already converted. *)
Theorem convert_to_selector_idempotent (s : string) :
  is_ai_id (_convert_to_selector s) = false
  /\ _convert_to_selector (_convert_to_selector s) = _convert_to_selector s.
Proof.
  assert (is_ai_id (_convert_to_selector s) = false) as Hno.
  { unfold _convert_to_selector. destruct (is_ai_id s) eqn:Hs; [|exact Hs].
    unfold is_ai_id. apply andb_false_intro2. reflexivity. }
  split; [exact Hno|].
  unfold _convert_to_selector at 1. now rewrite Hno.
Qed.

(** ** The summary of the elements of a page *)

Section SummarizeFacts.

Context {Elem : Type} `{EqDecision Elem}.

Variable labelled_control : Elem -> bool.
Variable input_field : Elem -> Result bool.

Lemma extends_refl (elements p : list Elem) : extends elements p p.
Proof. split; [reflexivity|]. split; [intros e; now left | trivial]. Qed.

Lemma extends_snoc (elem : Elem) (rest p : list Elem) :
  elem ∉ p -> extends (elem :: rest) p (p ++ [elem]).
Proof.
  intros Hnew. split; [now apply prefix_app_r|]. split.
  - intros e [He | He%list_elem_of_singleton]%elem_of_app;
      [now left | right; subst; left].
  - intros Hp. apply NoDup_app. split; [exact Hp|]. split.
    + intros e He ->%list_elem_of_singleton. contradiction.
    + apply NoDup_singleton.
Qed.

Lemma extends_step (elem : Elem) (rest p p' p'' : list Elem) :
  extends (elem :: rest) p p' -> extends rest p' p'' ->
  extends (elem :: rest) p p''.
Proof.
  intros (H1 & H2 & H3) (H4 & H5 & H6).
  split; [etrans; eassumption|]. split; [|tauto].
  intros e He. destruct (H5 e He) as [Hp | Hrest].
  - now apply H2.
  - right. now right.
Qed.

Lemma first_pass_filter (elements : list Elem) :
  first_pass labelled_control elements
  = List.filter labelled_control elements.
Proof.
  unfold first_pass.
  enough (forall p,
            foldl (fun prioritized elem =>
                     if labelled_control elem then prioritized ++ [elem]
                     else prioritized) p elements
            = p ++ List.filter labelled_control elements) as H
    by apply (H []).
  induction elements as [|elem rest IH]; intros p; cbn [foldl List.filter].
  - now rewrite app_nil_r.
  - rewrite IH. destruct (labelled_control elem); [|reflexivity].
    now rewrite <- app_assoc.
Qed.

Lemma second_pass_extends (elements : list Elem) :
  forall p p',
    second_pass input_field p elements = Ok p' -> extends elements p p'.
Proof.
  induction elements as [|elem rest IH]; intros p p'; cbn [second_pass].
  - intros [= <-]. apply extends_refl.
  - destruct (input_field elem) as [is_input|e]; [|discriminate].
    intros Hrest. apply IH in Hrest.
    eapply extends_step; [|exact Hrest].
    unfold py_in. destruct is_input; [|apply extends_refl].
    case_bool_decide; cbn [andb negb];
      [apply extends_refl | now apply extends_snoc].
Qed.

Lemma third_pass_extends (max_elements : Z) (elements : list Elem) :
  forall p, extends elements p (third_pass max_elements p elements).
Proof.
  induction elements as [|elem rest IH]; intros p; cbn [third_pass].
  - apply extends_refl.
  - cbn zeta.
    assert (extends (elem :: rest) p
              (if negb (py_in elem p) then p ++ [elem] else p)) as Hstep.
    { unfold py_in. case_bool_decide; cbn [negb];
        [apply extends_refl | now apply extends_snoc]. }
    destruct (Z.of_nat (length (if negb (py_in elem p) then p ++ [elem]
                                else p)) >=? max_elements);
      [exact Hstep|].
    eapply extends_step; [exact Hstep | apply IH].
Qed.

(** The third loop stops with [max_elements] elements or more, or with
    every element it walked. *)
Lemma third_pass_full (max_elements : Z) (elements : list Elem) :
  forall p,
    max_elements <= Z.of_nat (length (third_pass max_elements p elements))
    \/ forall e, e ∈ elements -> e ∈ third_pass max_elements p elements.
Proof.
  induction elements as [|elem rest IH]; intros p; cbn [third_pass].
  - right. intros e He. inversion He.
  - cbn zeta.
    set (p1 := if negb (py_in elem p) then p ++ [elem] else p).
    assert (elem ∈ p1) as Hin.
    { unfold p1, py_in. case_bool_decide; cbn [negb]; [assumption|].
      apply elem_of_app. right. now apply list_elem_of_singleton. }
    destruct (Z.of_nat (length p1) >=? max_elements) eqn:Hfull.
    + left. apply Z.geb_le in Hfull. exact Hfull.
    + destruct (IH p1) as [Hlen | Hall]; [now left | right].
      intros e [-> | He]%elem_of_cons; [|now apply Hall].
      destruct (third_pass_extends max_elements rest p1) as ([k ->] & _).
      apply elem_of_app. now left.
Qed.

Lemma slice_to_take {A} (n : Z) (l : list A) :
  0 <= n -> slice_to n l = take (Z.to_nat n) l.
Proof.
  intros Hn. unfold slice_to.
  destruct (n <? 0) eqn:Hneg; [|reflexivity].
  apply Z.ltb_lt in Hneg. lia.
Qed.

Lemma NoDup_list_filter {A} (f : A -> bool) (l : list A) :
  NoDup l -> NoDup (List.filter f l).
Proof.
  induction 1 as [|x l Hx Hl IH]; cbn [List.filter]; [constructor|].
  destruct (f x); [|exact IH].
  constructor; [|exact IH].
  intros Hin%list_elem_of_In%filter_In. apply Hx.
  now apply list_elem_of_In.
Qed.

(** What [summarize_elements] computes on a long list. *)
Lemma summarize_elements_long (elements : list Elem) (max_elements : Z)
    (r : list Elem) :
  0 <= max_elements < Z.of_nat (length elements) ->
  summarize_elements labelled_control input_field elements max_elements
  = Ok r ->
  exists rest,
    r = take (Z.to_nat max_elements)
          (List.filter labelled_control elements ++ rest)
    /\ (forall e, e ∈ rest -> e ∈ elements)
    /\ (NoDup elements ->
        NoDup (List.filter labelled_control elements ++ rest)
        /\ (Z.to_nat max_elements
            <= length (List.filter labelled_control elements ++ rest))%nat).
Proof.
  intros [H0 Hlong]. unfold summarize_elements.
  destruct (Z.of_nat (length elements) <=? max_elements) eqn:Hshort.
  { apply Z.leb_le in Hshort. lia. }
  rewrite first_pass_filter.
  destruct (second_pass input_field
              (List.filter labelled_control elements) elements)
    as [p2|e] eqn:Hsecond; [|discriminate].
  intros [= <-]. rewrite slice_to_take by exact H0.
  apply second_pass_extends in Hsecond as ([k2 ->] & Hin2 & Hnd2).
  pose proof (third_pass_extends max_elements elements
                (List.filter labelled_control elements ++ k2))
    as ([k3 Hk3] & Hin3 & Hnd3).
  pose proof (third_pass_full max_elements elements
                (List.filter labelled_control elements ++ k2)) as Hfull.
  rewrite Hk3 in *. rewrite <- app_assoc in *.
  assert (forall e, e ∈ List.filter labelled_control elements ->
                    e ∈ elements) as Hin1.
  { intros e He%list_elem_of_In%filter_In. now apply list_elem_of_In. }
  exists (k2 ++ k3). split; [reflexivity|]. split.
  - intros e He.
    assert (e ∈ List.filter labelled_control elements ++ k2 ++ k3) as He'
      by (apply elem_of_app; now right).
    destruct (Hin3 e He') as [Hp | ?]; [|assumption].
    destruct (Hin2 e Hp) as [? | ?]; [now apply Hin1 | assumption].
  - intros Hnd.
    assert (NoDup (List.filter labelled_control elements ++ k2 ++ k3))
      as Hnd'.
    { apply Hnd3, Hnd2. now apply NoDup_list_filter. }
    split; [exact Hnd'|].
    destruct Hfull as [Hlen | Hall]; [lia|].
    pose proof (submseteq_length _ _ (NoDup_submseteq _ _ Hnd Hall)). lia.
Qed.

(** X23: whenever [summarize_elements] returns, with a non-negative bound, it
    returns at most [max_elements] elements, each of them an element of the
    list it was given. *)
Theorem summarize_elements_bound (elements : list Elem) (max_elements : Z)
    (r : list Elem) :
  0 <= max_elements ->
  summarize_elements labelled_control input_field elements max_elements
  = Ok r ->
  Z.of_nat (length r) <= max_elements
  /\ forall e, e ∈ r -> e ∈ elements.
Proof.
  intros H0 Hrun.
  destruct (Z.of_nat (length elements) <=? max_elements) eqn:Hshort.
  - unfold summarize_elements in Hrun. rewrite Hshort in Hrun.
    injection Hrun as <-. apply Z.leb_le in Hshort. now split.
  - apply Z.leb_gt in Hshort.
    destruct (summarize_elements_long elements max_elements r
                (conj H0 Hshort) Hrun) as (rest & -> & Hin & _).
    split.
    + rewrite length_take. lia.
    + intros e He.
      destruct (prefix_take
                  (List.filter labelled_control elements ++ rest)
                  (Z.to_nat max_elements)) as [k Hk].
      assert (e ∈ List.filter labelled_control elements ++ rest) as He'.
      { rewrite Hk. apply elem_of_app. now left. }
      apply elem_of_app in He' as [He' | He']; [|now apply Hin].
      apply list_elem_of_In, filter_In in He' as [He' _].
      now apply list_elem_of_In.
Qed.

(** X24: on a list of distinct elements longer than a non-negative bound,
    [summarize_elements], when it returns, returns exactly [max_elements]
    distinct elements, and the labelled buttons and links come first, in
    the order of the page. *)
Theorem summarize_elements_exact (elements : list Elem) (max_elements : Z)
    (r : list Elem) :
  NoDup elements ->
  0 <= max_elements < Z.of_nat (length elements) ->
  summarize_elements labelled_control input_field elements max_elements
  = Ok r ->
  Z.of_nat (length r) = max_elements
  /\ NoDup r
  /\ take (Z.to_nat max_elements) (List.filter labelled_control elements)
     `prefix_of` r.
Proof.
  intros Hnd Hlong Hrun.
  destruct (summarize_elements_long elements max_elements r Hlong Hrun)
    as (rest & -> & _ & Hfull).
  destruct (Hfull Hnd) as [Hnd' Hlen].
  split; [rewrite length_take; lia|]. split.
  - exact (sublist_NoDup _ _ Hnd' (sublist_take _ _)).
  - rewrite take_app. now apply prefix_app_r.
Qed.

End SummarizeFacts.

(** * Instances of the further properties *)

Lemma small_manager_wf : wf_manager small_manager.
Proof.
  unfold wf_manager, small_manager.
  cbn [items message_history maxlen heap system_message length].
  split; [lia|]. split; [lia|]. split; [reflexivity | constructor].
Defined.

Lemma greeted_manager_wf : wf_manager greeted_manager.
Proof.
  apply append_message_wf; [reflexivity | cbn; lia | exact small_manager_wf].
Defined.

Lemma manager_stays_well_formed_witness :
  ContextManager_init 100 5 = Ok small_manager
  /\ let cm := run_ops length_estimate
                 [AddUser "hi"; GetMessages; SetSystem "be brief"; ClearHistory]
                 small_manager in
     wf_manager cm
     /\ Z.of_nat (length (items (message_history cm))) <= 2 * 5
     /\ max_tokens cm = 100
     /\ sliding_window_size cm = 5.
Proof.
  split; [reflexivity|].
  exact (manager_stays_well_formed length_estimate 100 5 small_manager
           [AddUser "hi"; GetMessages; SetSystem "be brief"; ClearHistory]
           eq_refl).
Defined.

Lemma get_messages_shape_witness :
  wf_manager greeted_manager
  /\ exists rest,
       fst (get_messages length_estimate true greeted_manager) = [] ++ rest
       /\ rest `suffix_of` items (message_history greeted_manager).
Proof.
  split; [exact greeted_manager_wf|].
  destruct (get_messages_shape length_estimate greeted_manager
              greeted_manager_wf) as (rest & Hout & Hsuffix & _).
  exists rest. split; [exact Hout | exact Hsuffix].
Defined.

Lemma compress_window_witness :
  0 <= sliding_window_size greeted_manager
  /\ exists recent,
       fst (_compress_messages length_estimate greeted_manager [0; 1]%nat)
       = [0%nat] ++ recent
       /\ recent `suffix_of` [1%nat]
       /\ Z.of_nat (length recent) = 1.
Proof.
  assert (0 <= sliding_window_size greeted_manager) as Hw by (cbn; lia).
  split; [exact Hw|].
  destruct (compress_window length_estimate greeted_manager [0; 1]%nat Hw)
    as (recent & Hout & Hsuffix & Hlen).
  exists recent. split; [exact Hout|]. split; [exact Hsuffix | exact Hlen].
Defined.

Lemma compress_truncates_witness :
  _count_messages_tokens length_estimate (heap crowded_manager)
    (fst (_compress_messages length_estimate crowded_manager [1; 2]%nat))
  > max_tokens crowded_manager
  /\ (1%nat ∈ fst (_compress_messages length_estimate crowded_manager
                     [1; 2]%nat))
  /\ len (content
            (heap (snd (_compress_messages length_estimate crowded_manager
                          [1; 2]%nat)) !!! 1%nat)) <= 5000.
Proof.
  assert (_count_messages_tokens length_estimate (heap crowded_manager)
            (fst (_compress_messages length_estimate crowded_manager
                    [1; 2]%nat))
          > max_tokens crowded_manager) as Hover by (vm_compute; reflexivity).
  assert (1%nat ∈ fst (_compress_messages length_estimate crowded_manager
                         [1; 2]%nat)) as Hin.
  { assert (fst (_compress_messages length_estimate crowded_manager
                   [1; 2]%nat) = [1; 2]%nat) as -> by (vm_compute; reflexivity).
    left. }
  split; [exact Hover|]. split; [exact Hin|].
  destruct (compress_truncates length_estimate crowded_manager [1; 2]%nat
              1%nat Hover Hin) as [Hsys | [Htool | Hlen]].
  - vm_compute in Hsys. discriminate Hsys.
  - vm_compute in Htool. discriminate Htool.
  - exact Hlen.
Defined.

Lemma count_tokens_fallback_witness :
  (forall text, exists e, no_tokenizer text = Raise e)
  /\ LLMClient_count_tokens no_tokenizer "four score" = 2
  /\ _count_messages_tokens (LLMClient_count_tokens no_tokenizer)
       (heap (snd (_compress_messages (LLMClient_count_tokens no_tokenizer)
                     crowded_manager [1; 2]%nat)))
       (fst (_compress_messages (LLMClient_count_tokens no_tokenizer)
               crowded_manager [1; 2]%nat))
     <= _count_messages_tokens (LLMClient_count_tokens no_tokenizer)
          (heap crowded_manager)
          (fst (_compress_messages (LLMClient_count_tokens no_tokenizer)
                  crowded_manager [1; 2]%nat)).
Proof.
  assert (forall text, exists e, no_tokenizer text = Raise e) as Hfail
    by (intros text; eexists; reflexivity).
  split; [exact Hfail|].
  destruct (count_tokens_fallback no_tokenizer crowded_manager [1; 2]%nat
              Hfail) as [Hcount Hle].
  split; [exact (proj1 (Hcount "four score")) | exact Hle].
Defined.

Lemma flagged_iff_witness :
  (exists why,
      _is_destructive_action (py_str_lower idle_world) guarded "click"
        (function_arguments click_delete)
      = Ok (true, why))
  /\ exists pattern,
       click_matches (py_str_lower idle_world) guarded
         (function_arguments click_delete) pattern.
Proof.
  assert (exists why,
             _is_destructive_action (py_str_lower idle_world) guarded "click"
               (function_arguments click_delete) = Ok (true, why)) as Hflag
    by (eexists; vm_compute; reflexivity).
  split; [exact Hflag|].
  destruct (proj1 (flagged_iff (py_str_lower idle_world) guarded "click"
                     (function_arguments click_delete)) Hflag)
    as [[_ Hclick] | [Habs _]]; [exact Hclick | discriminate Habs].
Defined.

Lemma capital_pattern_never_matches_witness :
  Forall (fun pattern => has_upper pattern = true)
         (destructive_patterns capitalised)
  /\ _is_destructive_action (py_str_lower idle_world) capitalised "click"
       (function_arguments click_delete)
     <> Ok (true, "Обнаружен деструктивный паттерн: 'Delete'").
Proof.
  assert (Forall (fun pattern => has_upper pattern = true)
                 (destructive_patterns capitalised)) as Hall
    by (repeat constructor).
  split; [exact Hall|].
  exact (capital_pattern_never_matches idle_world capitalised
           (function_arguments click_delete) _ Hall).
Defined.

Lemma add_destructive_pattern_keeps_flags_witness :
  _is_destructive_action (py_str_lower idle_world) guarded "click"
    (function_arguments click_delete)
  = Ok (true, "Обнаружен деструктивный паттерн: 'delete'")
  /\ _is_destructive_action (py_str_lower idle_world)
       (add_destructive_pattern "remove" guarded)
       "click" (function_arguments click_delete)
     = Ok (true, "Обнаружен деструктивный паттерн: 'delete'").
Proof.
  assert (_is_destructive_action (py_str_lower idle_world) guarded "click"
            (function_arguments click_delete)
          = Ok (true, "Обнаружен деструктивный паттерн: 'delete'")) as Hflag
    by (vm_compute; reflexivity).
  split; [exact Hflag|].
  exact (add_destructive_pattern_keeps_flags (py_str_lower idle_world)
           "remove" guarded "click" (function_arguments click_delete) _
           Hflag).
Defined.

Lemma refusal_only_when_flagged_witness :
  check_action idle_world "click" (function_arguments click_delete)
    (fresh_orchestrator 2)
  = (Ok (mkVerdict false "Обнаружен деструктивный паттерн: 'delete'" true),
     fresh_orchestrator 2)
  /\ enabled (security_agent (fresh_orchestrator 2)) = true
  /\ exists why,
       _is_destructive_action (py_str_lower idle_world)
         (security_agent (fresh_orchestrator 2))
         "click" (function_arguments click_delete) = Ok (true, why).
Proof.
  assert (check_action idle_world "click" (function_arguments click_delete)
            (fresh_orchestrator 2)
          = (Ok (mkVerdict false "Обнаружен деструктивный паттерн: 'delete'"
                   true),
             fresh_orchestrator 2)) as Hcheck by (vm_compute; reflexivity).
  split; [exact Hcheck|].
  destruct (refusal_only_when_flagged idle_world "click"
              (function_arguments click_delete) (fresh_orchestrator 2) _ _
              Hcheck eq_refl) as (Hon & Hflag & _).
  split; [exact Hon | exact Hflag].
Defined.

Lemma confirmation_decides_witness :
  enabled (security_agent supervised_orchestrator) = true
  /\ user_confirmation_callback (security_agent supervised_orchestrator)
     = Some declining
  /\ _is_destructive_action (py_str_lower idle_world)
       (security_agent supervised_orchestrator)
       (function_name click_delete) (function_arguments click_delete)
     = Ok (true, "Обнаружен деструктивный паттерн: 'delete'")
  /\ browser_calls (snd (_execute_tool_call idle_world click_delete
                           supervised_orchestrator)) = [].
Proof.
  assert (_is_destructive_action (py_str_lower idle_world)
            (security_agent supervised_orchestrator)
            (function_name click_delete) (function_arguments click_delete)
          = Ok (true, "Обнаружен деструктивный паттерн: 'delete'")) as Hflag
    by (vm_compute; reflexivity).
  split; [reflexivity|]. split; [reflexivity|]. split; [exact Hflag|].
  pose proof (confirmation_decides idle_world click_delete
                supervised_orchestrator declining _ eq_refl eq_refl Hflag)
    as Hrun.
  cbn zeta in Hrun. unfold declining at 1 in Hrun. cbn beta iota in Hrun.
  rewrite Hrun. reflexivity.
Defined.

Lemma ill_typed_click_aborts_witness :
  enabled (security_agent (fresh_orchestrator 2)) = true
  /\ args_get click_number "selector" (VStr "") = VInt 3
  /\ (forall s, VInt 3 <> VStr s)
  /\ _process_llm_response idle_world
       (mkResponse None [mkToolCall "click" click_number; click_delete])
       (fresh_orchestrator 2)
     = (Raise (PyExc "AttributeError"
                 "'int' object has no attribute 'lower'"),
        fresh_orchestrator 2).
Proof.
  assert (args_get click_number "selector" (VStr "") = VInt 3) as Hsel
    by (vm_compute; reflexivity).
  assert (forall s, VInt 3 <> VStr s) as Hbad by (intros s; discriminate).
  split; [reflexivity|]. split; [exact Hsel|]. split; [exact Hbad|].
  exact (proj2 (ill_typed_click_aborts idle_world click_number (VInt 3)
                  (fresh_orchestrator 2) [click_delete] eq_refl Hsel Hbad)).
Defined.

Lemma run_keeps_manager_witness :
  0 <= maxlen (message_history (context_manager (fresh_orchestrator 2)))
  /\ wf_manager (context_manager (fresh_orchestrator 2))
  /\ exists tr o',
       execute_task idle_world "report the title" (fresh_orchestrator 2)
       = Some (Ok tr, o')
       /\ wf_manager (context_manager o').
Proof.
  assert (0 <= maxlen (message_history
                         (context_manager (fresh_orchestrator 2)))) as Hmax
    by (cbn; lia).
  split; [exact Hmax|]. split; [exact small_manager_wf|].
  destruct (run_keeps_manager idle_world "report the title"
              (fresh_orchestrator 2) Hmax small_manager_wf)
    as (tr & o' & Hrun & _ & _ & _ & Hwf).
  exists tr, o'. split; [exact Hrun | exact Hwf].
Defined.

Lemma only_task_complete_ends_witness :
  Forall (fun tc => function_name tc <> "task_complete")
         (tool_calls (mkResponse None [click_delete]))
  /\ task_completed (snd (_process_llm_response idle_world
                            (mkResponse None [click_delete])
                            (fresh_orchestrator 2)))
     = task_completed (fresh_orchestrator 2).
Proof.
  assert (Forall (fun tc => function_name tc <> "task_complete")
                 (tool_calls (mkResponse None [click_delete]))) as Hcalls.
  { constructor; [discriminate | constructor]. }
  split; [exact Hcalls|].
  exact (proj1 (only_task_complete_ends idle_world
                  (mkResponse None [click_delete]) (fresh_orchestrator 2)
                  Hcalls)).
Defined.

Lemma idle_world_never_completes : never_completes idle_world.
Proof.
  intros t seen response Hanswer. injection Hanswer as <-. constructor.
Defined.

Lemma budget_exhausted_witness :
  never_completes idle_world
  /\ (forall msg p, exists s, error_recovery_prompt idle_world msg p = Ok s)
  /\ 0 <= max_steps (fresh_orchestrator 2)
  /\ exists o',
       execute_task idle_world "report the title" (fresh_orchestrator 2)
       = Some (Ok (mkTaskResult (VBool false) (VStr "") 2
                                (Some "Превышен лимит шагов")), o').
Proof.
  assert (forall msg p,
             exists s, error_recovery_prompt idle_world msg p = Ok s)
    as Hrecover by (intros msg p; eexists; reflexivity).
  assert (0 <= max_steps (fresh_orchestrator 2)) as Hmax by (cbn; lia).
  split; [exact idle_world_never_completes|]. split; [exact Hrecover|].
  split; [exact Hmax|].
  destruct (budget_exhausted idle_world "report the title"
              (fresh_orchestrator 2) idle_world_never_completes Hrecover Hmax)
    as (o' & Hrun & _).
  exists o'. exact Hrun.
Defined.

Lemma tool_call_requests_one_action_witness :
  enabled (security_agent (fresh_orchestrator 2)) = true
  /\ check_action idle_world (function_name click_delete)
       (function_arguments click_delete) (fresh_orchestrator 2)
     = (Ok (mkVerdict false "Обнаружен деструктивный паттерн: 'delete'" true),
        fresh_orchestrator 2)
  /\ browser_calls (snd (_execute_tool_call idle_world click_delete
                           (fresh_orchestrator 2)))
     = browser_calls (fresh_orchestrator 2).
Proof.
  assert (check_action idle_world (function_name click_delete)
            (function_arguments click_delete) (fresh_orchestrator 2)
          = (Ok (mkVerdict false "Обнаружен деструктивный паттерн: 'delete'"
                   true),
             fresh_orchestrator 2)) as Hcheck by (vm_compute; reflexivity).
  split; [reflexivity|]. split; [exact Hcheck|].
  exact (proj2 (tool_call_requests_one_action idle_world click_delete
                  (fresh_orchestrator 2)) _ _ eq_refl Hcheck eq_refl).
Defined.

Lemma sample_elements_NoDup : NoDup sample_elements.
Proof.
  apply (bool_decide_unpack _). vm_compute. exact I.
Defined.

Lemma summarize_elements_bound_witness :
  0 <= 2
  /\ summarize_elements Nat.even sample_input sample_elements 2
     = Ok [2; 4]%nat
  /\ Z.of_nat (length [2; 4]%nat) <= 2.
Proof.
  assert (summarize_elements Nat.even sample_input sample_elements 2
          = Ok [2; 4]%nat) as Hrun by (vm_compute; reflexivity).
  split; [lia|]. split; [exact Hrun|].
  exact (proj1 (summarize_elements_bound Nat.even sample_input
                  sample_elements 2 [2; 4]%nat ltac:(lia) Hrun)).
Defined.

Lemma summarize_elements_exact_witness :
  NoDup sample_elements
  /\ 0 <= 2 < Z.of_nat (length sample_elements)
  /\ summarize_elements Nat.even sample_input sample_elements 2
     = Ok [2; 4]%nat
  /\ take (Z.to_nat 2) (List.filter Nat.even sample_elements)
     `prefix_of` [2; 4]%nat.
Proof.
  assert (0 <= 2 < Z.of_nat (length sample_elements)) as Hlong
    by (cbn; lia).
  assert (summarize_elements Nat.even sample_input sample_elements 2
          = Ok [2; 4]%nat) as Hrun by (vm_compute; reflexivity).
  split; [exact sample_elements_NoDup|]. split; [exact Hlong|].
  split; [exact Hrun|].
  exact (proj2 (proj2 (summarize_elements_exact Nat.even sample_input
                         sample_elements 2 [2; 4]%nat sample_elements_NoDup
                         Hlong Hrun))).
Defined.
